(** * brain-atlas-viewer: the label cache and the per-subject asset index

    A shallow embedding of [scripts/generate_dandiset_assets.py] and
    [scripts/rescan_all_subjects.py], and the properties of the cache load,
    the gap-filling synchronizer and the index builder.

    Character model.  A Python [str] is modelled by [string]; a character is
    an 8-bit code point, compared by its code ([Ascii.compare]), which is the
    order Python uses on [str].  *)

From Stdlib Require Import String Ascii List ZArith Bool Arith Lia.
From Stdlib Require Import Sorting.Sorted Permutation.
Import ListNotations.
Local Open Scope string_scope.
Local Open Scope list_scope.

Set Implicit Arguments.

(* ================================================================== *)
(** * Python built-ins used by the two scripts *)
(* ================================================================== *)

Module Py.

(** ** Exceptions and the [for] loop *)

Inductive exn : Type :=
| FileNotFoundError   (* open() of a missing cache file *)
| JSONDecodeError     (* json.loads, or the KeyError of a missing field *)
| IndexError          (* xs[0] on an empty list *)
| ListingError.       (* whatever get_nwb_assets_paged raises *)

Inductive result (A : Type) : Type :=
| Ok (a : A)
| Raise (e : exn).
Arguments Ok {A} a.
Arguments Raise {A} e.

Definition bind {A B : Type} (m : result A) (k : A -> result B) : result B :=
  match m with
  | Ok a => k a
  | Raise e => Raise e
  end.

(** [for x in xs: body], the loop variable threaded through the state; an
    exception of the body leaves the loop. *)
Fixpoint for_each {A S : Type} (xs : list A) (body : S -> A -> result S)
  (s : S) : result S :=
  match xs with
  | [] => Ok s
  | x :: xs' => bind (body s x) (for_each xs' body)
  end.

(** ** Strings *)

(** [s.split(sep)] for a one-character separator: never empty. *)
Fixpoint split (sep : ascii) (s : string) : list string :=
  match s with
  | EmptyString => [EmptyString]
  | String c rest =>
      if Ascii.eqb c sep then EmptyString :: split sep rest
      else match split sep rest with
           | part :: parts => String c part :: parts
           | [] => [String c EmptyString]
           end
  end.

(** The characters [str.strip()] removes, among the 8-bit code points:
    TAB LF VT FF CR, FS GS RS US, space, NEL and NBSP. *)
Definition isspace (c : ascii) : bool :=
  let n := N_of_ascii c in
  ((9 <=? n) && (n <=? 13) || (28 <=? n) && (n <=? 32)
   || (n =? 133) || (n =? 160))%N.

Fixpoint lstrip (s : string) : string :=
  match s with
  | EmptyString => EmptyString
  | String c rest => if isspace c then lstrip rest else s
  end.

Fixpoint rstrip (s : string) : string :=
  match s with
  | EmptyString => EmptyString
  | String c rest =>
      match rstrip rest with
      | EmptyString => if isspace c then EmptyString else String c EmptyString
      | rest' => String c rest'
      end
  end.

Definition strip (s : string) : string := rstrip (lstrip s).

(** [not line] on a string. *)
Definition is_empty (s : string) : bool :=
  match s with EmptyString => true | _ => false end.

(** ** [sorted(xs, key=...)] on string keys

    Python's sort is stable, and the stable sorted arrangement of a list is
    unique; insertion from the right computes it. *)
Section Sorted.
Context {A : Type} (key : A -> string).

Fixpoint insert (x : A) (l : list A) : list A :=
  match l with
  | [] => [x]
  | y :: l' => if String.leb (key x) (key y) then x :: l else y :: insert x l'
  end.

Fixpoint sorted (l : list A) : list A :=
  match l with
  | [] => []
  | x :: l' => insert x (sorted l')
  end.

Definition key_le (x y : A) : Prop := String.leb (key x) (key y) = true.
Definition key_lt (x y : A) : Prop := String.ltb (key x) (key y) = true.

(** [x] is the first of the elements of [l] that have the smallest key. *)
Definition first_smallest (x : A) (l : list A) : Prop :=
  exists pre post,
    l = pre ++ x :: post
    /\ Forall (key_lt x) pre
    /\ Forall (key_le x) post.

End Sorted.

(** Strictly ascending strings. *)
Definition ascending (l : list string) : Prop :=
  StronglySorted (fun a b => String.ltb a b = true) l.

(** ** Dictionaries

    A [dict] keeps its keys in insertion order, and both scripts iterate
    over dictionaries; an association list with distinct keys. *)

Class EqDec (K : Type) := eq_dec : forall a b : K, {a = b} + {a <> b}.

#[export] Instance string_EqDec : EqDec string := string_dec.

#[export] Instance pair_EqDec {A B : Type} `{EqDec A} `{EqDec B}
  : EqDec (A * B).
Proof.
  intros [a1 b1] [a2 b2].
  destruct (eq_dec a1 a2) as [Ha | Ha].
  - destruct (eq_dec b1 b2) as [Hb | Hb].
    + left. now rewrite Ha, Hb.
    + right. intros E. apply Hb. now inversion E.
  - right. intros E. apply Ha. now inversion E.
Defined.

Section Dict.
Context {K V : Type} `{EqDec K}.

Definition dict : Type := list (K * V).

Definition keys (d : dict) : list K := map fst d.

Definition values (d : dict) : list V := map snd d.

(** [d.get(k)] *)
Fixpoint get (k : K) (d : dict) : option V :=
  match d with
  | [] => None
  | (k', v) :: d' => if eq_dec k k' then Some v else get k d'
  end.

(** [k in d] *)
Definition contains (k : K) (d : dict) : bool :=
  match get k d with Some _ => true | None => false end.

(** [d[k] = v]: an existing key keeps its place. *)
Fixpoint set (k : K) (v : V) (d : dict) : dict :=
  match d with
  | [] => [(k, v)]
  | (k', v') :: d' =>
      if eq_dec k k' then (k', v) :: d' else (k', v') :: set k v d'
  end.

End Dict.
Arguments dict : clear implicits.

(** [d[k]] on a [defaultdict]: the default value at a missing key. *)
Definition get_default {K V : Type} `{EqDec K} (k : K) (dflt : V)
  (d : dict K V) : V :=
  match get k d with Some v => v | None => dflt end.

(** [d[k].append(x)] on a [defaultdict(list)]. *)
Definition dd_append {K X : Type} `{EqDec K} (k : K) (x : X)
  (d : dict K (list X)) : dict K (list X) :=
  set k (get_default k [] d ++ [x]) d.

(** [sorted(set(xs))]; the order in which a set is iterated does not show
    after sorting. *)
Definition sorted_set (xs : list string) : list string :=
  sorted (fun s => s) (nodup string_dec xs).

End Py.

Import Py.

(* ================================================================== *)
(** * The data of the label cache and of the index *)
(* ================================================================== *)

(** A region-match record of [matched_locations]. *)
Record Match : Type := mkMatch {
  m_id : Z;
  m_acronym : string;
  m_name : string
}.

(** A line of [label_cache.jsonl], as a decoded object.  An entry without
    [matched_locations] is read with the empty mapping, which is what
    [entry.get("matched_locations", {})] makes of it. *)
Record Entry : Type := mkEntry {
  e_dandiset_id : string;
  e_asset_id : string;
  e_path : string;
  e_status : string;
  e_matched_locations : dict string (list Match)
}.

(** An asset of a DANDI listing. *)
Record Asset : Type := mkAsset {
  a_asset_id : string;
  a_path : string
}.

(** A region of the index: [{"id", "acronym", "name"}]. *)
Record Region : Type := mkRegion {
  r_id : Z;
  r_acronym : string;
  r_name : string
}.

(** An asset of the index: [{"path", "asset_id", "regions"}]. *)
Record IndexAsset : Type := mkIndexAsset {
  i_path : string;
  i_asset_id : string;
  i_regions : list Region
}.

(** [dandiset_assets.json]: dandiset id to the assets kept for it. *)
Definition Index : Type := dict string (list IndexAsset).

(** [x in s] for a set of region ids. *)
Definition id_in (i : Z) (s : list Z) : bool := existsb (Z.eqb i) s.

Definition LF : string := String (ascii_of_nat 10) EmptyString.

Definition slash : ascii := ascii_of_nat 47.

Definition underscore : ascii := ascii_of_nat 95.

(* ================================================================== *)
(** * scripts/generate_dandiset_assets.py *)
(* ================================================================== *)

Module Generate.

Definition FILTER_IDS : list Z := [997; 8]%Z.

Definition extract_subject (path : string) : string :=
  let parts := split slash path in
  if Nat.ltb 1 (List.length parts) then nth 0 parts EmptyString
  else nth 0 (split underscore path) EmptyString.

(** Lines 38-46: the regions of an entry that are not filtered out. *)
Definition regions_of (matched : dict string (list Match)) : list Region :=
  fold_left
    (fun regions (item : string * list Match) =>
       fold_left
         (fun regions m =>
            if negb (id_in (m_id m) FILTER_IDS)
            then regions ++ [mkRegion (m_id m) (m_acronym m) (m_name m)]
            else regions)
         (snd item) regions)
    matched [].

(** Lines 48-54: deduplicate by id. *)
Definition unique_regions_of (regions : list Region) : list Region :=
  snd (fold_left
         (fun (acc : list Z * list Region) r =>
            let (seen, unique_regions) := acc in
            if negb (id_in (r_id r) seen)
            then (r_id r :: seen, unique_regions ++ [r])
            else acc)
         regions ([], [])).

Section Main.

(** [json.loads] of a line, with the reading of the entry's fields. *)
Variable json_loads : string -> option Entry.

(** Lines 31-61: the body of the loop over the lines of the file. *)
Definition read_line (dandisets : dict string (dict string (list IndexAsset)))
  (line : string) : result (dict string (dict string (list IndexAsset))) :=
  match json_loads line with
  | None => Raise JSONDecodeError
  | Some entry =>
      let did := e_dandiset_id entry in
      let asset_id := e_asset_id entry in
      let path := e_path entry in
      let matched := e_matched_locations entry in
      let regions := regions_of matched in
      let unique_regions := unique_regions_of regions in
      let subject := extract_subject path in
      Ok (set did
            (dd_append subject (mkIndexAsset path asset_id unique_regions)
               (get_default did [] dandisets))
            dandisets)
  end.

(** Lines 64-72: the first asset by path of each subject. *)
Definition keep_first (dandisets : dict string (dict string (list IndexAsset)))
  : result Index :=
  for_each (sorted (fun s => s) (keys dandisets))
    (fun (result : Index) did =>
       let subjects := get_default did [] dandisets in
       bind
         (for_each (sorted (fun s => s) (keys subjects))
            (fun assets subj =>
               let sorted_assets :=
                 sorted i_path (get_default subj [] subjects) in
               match sorted_assets with
               | a :: _ => Ok (assets ++ [a])
               | [] => Raise IndexError
               end)
            [])
         (fun assets => Ok (set did assets result)))
    [].

(** [main]; the file is the list of its lines, [None] when it is
    missing.  The result is the object written to [OUTPUT]. *)
Definition main (label_cache_file : option (list string)) : result Index :=
  match label_cache_file with
  | None => Raise FileNotFoundError
  | Some lines => bind (for_each lines read_line []) keep_first
  end.

End Main.

End Generate.

(* ================================================================== *)
(** * scripts/rescan_all_subjects.py *)
(* ================================================================== *)

Module Rescan.

Definition FILTER_IDS : list Z := [997; 8]%Z.

Definition extract_subject (path : string) : string :=
  let parts := split slash path in
  if Nat.ltb 1 (List.length parts) then nth 0 parts EmptyString
  else nth 0 (split underscore path) EmptyString.

Definition Cache : Type := dict (string * string) Entry.

(** What a run has done so far: the in-memory table, the texts it has
    written at the end of the cache file, one for every call of
    [append_label_cache] and in the order of the calls, and the calls of
    [process_asset] in the order they were made.  The characters of the
    file after the run are those it had, followed by those of the texts
    written ([Run.file_after]). *)
Record state : Type := mkState {
  label_cache : Cache;
  appended : list string;
  calls : list (string * Asset);
  total_new : nat
}.

(** Lines 135-146: the regions of the entry kept for a subject. *)
Definition regions_of (matched : dict string (list Match)) : list Region :=
  snd (fold_left
         (fun (acc : list Z * list Region) (item : string * list Match) =>
            fold_left
              (fun (acc : list Z * list Region) m =>
                 let (seen, regions) := acc in
                 if negb (id_in (m_id m) FILTER_IDS)
                    && negb (id_in (m_id m) seen)
                 then (m_id m :: seen,
                       regions ++ [mkRegion (m_id m) (m_acronym m) (m_name m)])
                 else acc)
              (snd item) acc)
         matched ([], [])).

(** Lines 121-152: the index of a table. *)
Definition regenerate (cache : Cache) : result Index :=
  let dandisets :=
    fold_left
      (fun (dandisets : dict string (dict string (list Entry)))
           (item : (string * string) * Entry) =>
         let ds_id := fst (fst item) in
         let entry := snd item in
         let subj := extract_subject (e_path entry) in
         set ds_id (dd_append subj entry (get_default ds_id [] dandisets))
           dandisets)
      cache [] in
  for_each (sorted (fun s => s) (keys dandisets))
    (fun (result : Index) did =>
       let subjects := get_default did [] dandisets in
       bind
         (for_each (sorted (fun s => s) (keys subjects))
            (fun assets subj =>
               let entries := sorted e_path (get_default subj [] subjects) in
               match entries with
               | e :: _ =>
                   Ok (assets ++
                       [mkIndexAsset (e_path e) (e_asset_id e)
                          (regions_of (e_matched_locations e))])
               | [] => Raise IndexError
               end)
            [])
         (fun assets => Ok (set did assets result)))
    [].

Section Main.

(** [json.loads] of a line, with the reading of the entry's fields, and
    [json.dumps]. *)
Variable json_loads : string -> option Entry.
Variable json_dumps : Entry -> string.

(** The collaborators of [label_anatomy]: the listing of a dandiset, which
    may raise, and the labeling of one asset, [None] when it raises.  The
    lookup tables and [apply=False] are the same at every call and are left
    out; a result is an entry with all its fields, and the write of
    [append_label_cache] is taken to succeed, so that nothing else in the
    [try] block raises. *)
Variable get_nwb_assets_paged : string -> result (list Asset).
Variable process_asset : string -> Asset -> option Entry.

(** Lines 40-46: the body of the loop over the lines of the file. *)
Definition load_line (cache : Cache) (line : string) : result Cache :=
  let line := strip line in
  if is_empty line then Ok cache
  else match json_loads line with
       | None => Raise JSONDecodeError
       | Some entry =>
           Ok (set (e_dandiset_id entry, e_asset_id entry) entry cache)
       end.

Definition load_label_cache (label_cache_file : option (list string))
  : result Cache :=
  match label_cache_file with
  | None => Ok []
  | Some lines => for_each lines load_line []
  end.

(** Lines 50-52: one write at the end of the file, of the encoded entry
    and an end of line.  The file is opened for appending, so the text goes
    after the last character of the file, whatever that is; [written] is
    the sequence of the texts written so far. *)
Definition append_label_cache (entry : Entry) (written : list string)
  : list string :=
  written ++ [String.append (json_dumps entry) LF].

(** Lines 87-113: one subject of a dandiset. *)
Definition sync_subject (ds_id : string)
  (subject_assets : dict string (list Asset)) (st : state) (subj : string)
  : result state :=
  let assets := sorted a_path (get_default subj [] subject_assets) in
  let have_cached :=
    existsb (fun asset => contains (ds_id, a_asset_id asset) (label_cache st))
      assets in
  if have_cached then Ok st
  else match assets with
       | [] => Raise IndexError
       | asset :: _ =>
           let called := calls st ++ [(ds_id, asset)] in
           match process_asset ds_id asset with
           | Some result =>
               Ok (mkState
                     (set (ds_id, a_asset_id asset) result (label_cache st))
                     (append_label_cache result (appended st))
                     called
                     (total_new st + 1))
           | None =>
               Ok (mkState (label_cache st) (appended st) called
                     (total_new st))
           end
       end.

(** Lines 79-82: the listing grouped by subject. *)
Definition group_by_subject (all_assets : list Asset)
  : dict string (list Asset) :=
  fold_left
    (fun d asset => dd_append (extract_subject (a_path asset)) asset d)
    all_assets [].

(** Lines 72-113: one dandiset. *)
Definition sync_dandiset (st : state) (ds_id : string) : result state :=
  bind (get_nwb_assets_paged ds_id)
    (fun all_assets =>
       let subject_assets := group_by_subject all_assets in
       for_each (sorted (fun s => s) (keys subject_assets))
         (sync_subject ds_id subject_assets) st).

(** Line 61: the dandisets of the loaded cache. *)
Definition dandiset_ids_of (cache : Cache) : list string :=
  sorted_set (map fst (keys cache)).

(** Lines 57-113: all dandisets of the loaded cache. *)
Definition synchronize (cache : Cache) : result state :=
  for_each (dandiset_ids_of cache) sync_dandiset (mkState cache [] [] 0).

(** [main]: the final state of the run and the object written to
    [OUTPUT].  The loading of the Allen mapping before the loop and the
    messages printed along the way are left out. *)
Definition main (label_cache_file : option (list string))
  : result (state * Index) :=
  bind (load_label_cache label_cache_file)
    (fun cache =>
       bind (synchronize cache)
         (fun st =>
            bind (regenerate (label_cache st))
              (fun index => Ok (st, index)))).

End Main.

End Rescan.

(* ================================================================== *)
(** * The notions the properties are stated with *)
(* ================================================================== *)

Module Spec.

(** ** Subjects *)

(** [c] occurs in [s]. *)
Fixpoint occurs (c : ascii) (s : string) : bool :=
  match s with
  | EmptyString => false
  | String a rest => Ascii.eqb a c || occurs c rest
  end.

(** The part of [s] before the first [c]; all of [s] when [c] does not
    occur in it. *)
Fixpoint before (c : ascii) (s : string) : string :=
  match s with
  | EmptyString => EmptyString
  | String a rest => if Ascii.eqb a c then EmptyString else String a (before c rest)
  end.

(** The subject of a path: its first segment when it has a separator,
    what comes before its first underscore otherwise. *)
Definition subject_of (path : string) : string :=
  if occurs slash path then before slash path else before underscore path.

(** ** Regions *)

(** The region-match records of an entry, by location key in the order of
    the mapping and then in the order of the matches of the key. *)
Definition all_matches (matched : dict string (list Match)) : list Match :=
  concat (map snd matched).

Definition region_of (m : Match) : Region :=
  mkRegion (m_id m) (m_acronym m) (m_name m).

(** The exclusion set: grey (8) and root (997). *)
Definition excluded (i : Z) : bool := ((i =? 8) || (i =? 997))%Z.

(** The id of [m] occurs among the first [i] records of [ms]. *)
Definition seen_before (ms : list Match) (i : nat) (m : Match) : bool :=
  existsb (fun m' => (m_id m' =? m_id m)%Z) (firstn i ms).

(** The record at position [i] is kept when its id is not excluded and
    does not occur at an earlier position. *)
Definition kept (ms : list Match) (im : nat * Match) : bool :=
  negb (excluded (m_id (snd im))) && negb (seen_before ms (fst im) (snd im)).

Definition first_seen_regions (ms : list Match) : list Region :=
  map (fun im => region_of (snd im))
    (filter (kept ms) (combine (seq 0 (List.length ms)) ms)).

(** One pass over the records with the ids seen so far: the ids seen at
    the end and the regions kept. *)
Fixpoint scan (seen : list Z) (ms : list Match) : list Z * list Region :=
  match ms with
  | [] => (seen, [])
  | m :: ms' =>
      if negb (excluded (m_id m)) && negb (id_in (m_id m) seen)
      then let (seen', regions) := scan (m_id m :: seen) ms' in
           (seen', region_of m :: regions)
      else scan seen ms'
  end.

(** ** Grouping by dandiset and subject *)

Section Grouping.
Context {T X : Type}.
Variable did_of : T -> string.
Variable subj_of : T -> string.
Variable val_of : T -> X.

(** [dandisets[did][subj].append(x)] for one record. *)
Definition group_step (d : dict string (dict string (list X))) (t : T)
  : dict string (dict string (list X)) :=
  set (did_of t)
    (dd_append (subj_of t) (val_of t) (get_default (did_of t) [] d)) d.

Definition grouped (ts : list T) : dict string (dict string (list X)) :=
  fold_left group_step ts [].

(** The records of a dandiset and subject, in the order of [ts]. *)
Definition members (ts : list T) (did subj : string) : list T :=
  filter (fun t => String.eqb (did_of t) did && String.eqb (subj_of t) subj) ts.

End Grouping.

(** ** The loop that keeps one asset per subject *)

Section Keeping.
Context {X : Type}.
Variable key : X -> string.
Variable mk : X -> IndexAsset.

Definition build (dandisets : dict string (dict string (list X)))
  : result Index :=
  for_each (sorted (fun s => s) (keys dandisets))
    (fun (result : Index) did =>
       let subjects := get_default did [] dandisets in
       bind
         (for_each (sorted (fun s => s) (keys subjects))
            (fun assets subj =>
               match sorted key (get_default subj [] subjects) with
               | x :: _ => Ok (assets ++ [mk x])
               | [] => Raise IndexError
               end)
            [])
         (fun assets => Ok (set did assets result)))
    [].

(** The asset kept for a group. *)
Definition pick (l : list X) : list IndexAsset :=
  match sorted key l with
  | x :: _ => [mk x]
  | [] => []
  end.

(** The index of a grouping whose groups are not empty. *)
Definition index_of (dandisets : dict string (dict string (list X)))
  : Index :=
  map (fun did =>
         (did,
          flat_map
            (fun subj =>
               pick (get_default subj [] (get_default did [] dandisets)))
            (sorted (fun s => s) (keys (get_default did [] dandisets)))))
    (sorted (fun s => s) (keys dandisets)).

End Keeping.

(** ** The index, said from the entries

    [ts] are the entries the index is built from, each with the dandiset it
    is filed under: the lines of the file for [generate_dandiset_assets], the
    items of the table for [rescan_all_subjects]. *)

(** The asset of the index made from an entry. *)
Definition asset_record (e : Entry) : IndexAsset :=
  mkIndexAsset (e_path e) (e_asset_id e)
    (first_seen_regions (all_matches (e_matched_locations e))).

(** The subject an asset of the index stands for. *)
Definition record_subject (r : IndexAsset) : string := subject_of (i_path r).

Section SpecIndex.
Context {T : Type}.
Variable did_of : T -> string.
Variable entry_of : T -> Entry.

Definition subject_at (t : T) : string := subject_of (e_path (entry_of t)).

Definition dandisets_of (ts : list T) : list string :=
  sorted_set (map did_of ts).

Definition subjects_of (ts : list T) (did : string) : list string :=
  sorted_set
    (map subject_at (filter (fun t => String.eqb (did_of t) did) ts)).

(** The entries of a dandiset and subject, in the order of [ts]. *)
Definition group (ts : list T) (did subj : string) : list Entry :=
  map entry_of (members did_of subject_at ts did subj).

(** The asset kept for a group: that of its first entry by path. *)
Definition canonical (l : list Entry) : list IndexAsset :=
  pick e_path asset_record l.

Definition spec_index (ts : list T) : Index :=
  map (fun did =>
         (did,
          flat_map (fun subj => canonical (group ts did subj))
            (subjects_of ts did)))
    (dandisets_of ts).

(** Dandisets ascending, the assets of a dandiset ascending by subject, and
    an asset for a subject exactly when an entry of the dandiset has it. *)
Definition ordered_one_per_subject (ts : list T) (idx : Index) : Prop :=
  ascending (keys idx)
  /\ (forall did,
         In did (keys idx) <-> exists t, In t ts /\ did_of t = did)
  /\ forall did recs,
       In (did, recs) idx ->
       ascending (map record_subject recs)
       /\ forall subj,
            In subj (map record_subject recs) <->
            exists t, In t ts /\ did_of t = did /\ subject_at t = subj.

(** The asset of each subject is made from the first entry with the
    smallest path among the entries of the dandiset and subject. *)
Definition smallest_path_kept (ts : list T) (idx : Index) : Prop :=
  forall did subj,
    group ts did subj <> [] ->
    exists e recs,
      first_smallest e_path e (group ts did subj)
      /\ In (did, recs) idx
      /\ filter (fun r => String.eqb (record_subject r) subj) recs
         = [asset_record e].

End SpecIndex.

(** The asset [generate_dandiset_assets] makes from an entry when it reads
    its line. *)
Definition generate_record (e : Entry) : IndexAsset :=
  mkIndexAsset (e_path e) (e_asset_id e)
    (Generate.unique_regions_of (Generate.regions_of (e_matched_locations e))).

(** The asset [rescan_all_subjects] makes from the entry it keeps. *)
Definition rescan_record (e : Entry) : IndexAsset :=
  mkIndexAsset (e_path e) (e_asset_id e)
    (Rescan.regions_of (e_matched_locations e)).

(** The dandiset an item of the table is filed under. *)
Definition item_dandiset (item : (string * string) * Entry) : string :=
  fst (fst item).

Definition item_entry (item : (string * string) * Entry) : Entry := snd item.

Definition same_entry (e : Entry) : Entry := e.

(** The entries of the lines of a file, when all of them decode. *)
Fixpoint decode_all (json_loads : string -> option Entry)
  (lines : list string) : option (list Entry) :=
  match lines with
  | [] => Some []
  | line :: lines' =>
      match json_loads line, decode_all json_loads lines' with
      | Some e, Some es => Some (e :: es)
      | _, _ => None
      end
  end.

(** ** The cache file and the table *)

Definition entry_key (e : Entry) : string * string :=
  (e_dandiset_id e, e_asset_id e).

(** The lines of a file that are left after stripping and dropping the
    blank ones. *)
Definition stripped_lines (lines : list string) : list string :=
  filter (fun line => negb (is_empty line)) (map strip lines).

(** The table of a sequence of entries: each entry set at its key. *)
Definition table_of (es : list Entry) : Rescan.Cache :=
  fold_left (fun cache e => set (entry_key e) e cache) es [].

(** The items of a table as it is after loading: every entry under its
    own key. *)
Definition keyed (e : Entry) : (string * string) * Entry := (entry_key e, e).

(** ** The synchronizer *)

(** The assets of a listing that belong to a subject. *)
Definition listed (all_assets : list Asset) (subj : string) : list Asset :=
  filter (fun a => String.eqb (subject_of (a_path a)) subj) all_assets.

(** One of the assets has its key in the table. *)
Definition has_cached (cache : Rescan.Cache) (ds_id : string)
  (assets : list Asset) : bool :=
  existsb (fun a => contains (ds_id, a_asset_id a) cache) assets.

(** The calls of [process_asset] made for a dandiset and subject. *)
Definition calls_for (ds_id subj : string) (calls : list (string * Asset))
  : list (string * Asset) :=
  filter (fun c => String.eqb (fst c) ds_id
                   && String.eqb (subject_of (a_path (snd c))) subj)
    calls.

(** An entry of the table filed under a dandiset and of a subject. *)
Definition cached_subject (cache : Rescan.Cache) (ds_id subj : string)
  : bool :=
  existsb (fun item => String.eqb (item_dandiset item) ds_id
                       && String.eqb (subject_at item_entry item) subj)
    cache.

(** The assets of the index of a dandiset that stand for a subject. *)
Definition index_records (idx : Index) (did subj : string)
  : list IndexAsset :=
  filter (fun r => String.eqb (record_subject r) subj)
    (get_default did [] idx).

Section Replay.
Variable json_dumps : Entry -> string.
Variable process_asset : string -> Asset -> option Entry.

(** What a call leaves in the table and in the file: its result when it
    returns one, nothing when it raises. *)
Definition cache_step (cache : Rescan.Cache) (c : string * Asset)
  : Rescan.Cache :=
  match process_asset (fst c) (snd c) with
  | Some result => set (fst c, a_asset_id (snd c)) result cache
  | None => cache
  end.

Definition cache_after (calls : list (string * Asset))
  (cache : Rescan.Cache) : Rescan.Cache :=
  fold_left cache_step calls cache.

Definition log_of (c : string * Asset) : list string :=
  match process_asset (fst c) (snd c) with
  | Some result => [String.append (json_dumps result) LF]
  | None => []
  end.

Definition log_after (calls : list (string * Asset)) : list string :=
  flat_map log_of calls.

(** The state after a call of [process_asset]. *)
Definition after_call (st : Rescan.state) (c : string * Asset)
  : Rescan.state :=
  Rescan.mkState
    (cache_step (Rescan.label_cache st) c)
    (Rescan.appended st ++ log_of c)
    (Rescan.calls st ++ [c])
    (Rescan.total_new st + List.length (log_of c)).

Variable get_nwb_assets_paged : string -> result (list Asset).

(** A call as the synchronizer makes them: on the first asset with the
    smallest path among the listed assets of a subject none of which has its
    key in the loaded table [loaded]. *)
Definition call_made_for (loaded : Rescan.Cache) (c : string * Asset)
  : Prop :=
  exists all_assets,
    get_nwb_assets_paged (fst c) = Ok all_assets
    /\ first_smallest a_path (snd c)
         (listed all_assets (subject_of (a_path (snd c))))
    /\ has_cached loaded (fst c)
         (listed all_assets (subject_of (a_path (snd c)))) = false.

(** What holds of the state all along a run that started from the table
    [loaded]. *)
Definition run_invariant (loaded : Rescan.Cache) (st : Rescan.state)
  : Prop :=
  (forall k e, get k loaded = Some e -> get k (Rescan.label_cache st) = Some e)
  /\ Rescan.label_cache st = cache_after (Rescan.calls st) loaded
  /\ Rescan.appended st = log_after (Rescan.calls st)
  /\ Rescan.total_new st = List.length (log_after (Rescan.calls st))
  /\ Forall (call_made_for loaded) (Rescan.calls st).

End Replay.

(** The filtering test of [generate_dandiset_assets]. *)
Definition allowed (m : Match) : bool := negb (excluded (m_id m)).

(** The body of the inner loop of [Rescan.regions_of]. *)
Definition rescan_step (acc : list Z * list Region) (m : Match)
  : list Z * list Region :=
  let (seen, regions) := acc in
  if negb (id_in (m_id m) Rescan.FILTER_IDS) && negb (id_in (m_id m) seen)
  then (m_id m :: seen,
        regions ++ [mkRegion (m_id m) (m_acronym m) (m_name m)])
  else acc.

End Spec.

(* ================================================================== *)
(** * A small cache, a listing and a labeling routine *)
(* ================================================================== *)

Module Demo.

Definition ds1 : string := "000001".

Definition grey : Match := mkMatch 8 "grey" "Basic cell groups and regions".

Definition root : Match := mkMatch 997 "root" "root".

Definition cortex : Match := mkMatch 315 "CTX" "Cortex".

Definition cerebellum : Match := mkMatch 512 "CB" "Cerebellum".

Definition two_locations : dict string (list Match) :=
  [("loc1", [grey; cortex]); ("loc2", [cortex; cerebellum; root])].

Definition entry_b : Entry :=
  mkEntry ds1 "asset-b" "sub-01/b.nwb" "ok" two_locations.

Definition entry_a : Entry :=
  mkEntry ds1 "asset-a" "sub-01/a.nwb" "ok" [("loc1", [cortex])].

(** The asset of [entry_a] labelled a second time. *)
Definition entry_a_again : Entry :=
  mkEntry ds1 "asset-a" "sub-01/a.nwb" "ok" [("loc1", [cerebellum])].

Definition entry_2 : Entry :=
  mkEntry "000000" "asset-2" "sub-02_ses-01.nwb" "ok" [].

(** The lines of the files below, by their text without the end of line,
    and a decoder that ignores the white space around a line, as
    [json.loads] does. *)
Definition decoded : dict string Entry :=
  [("line-b", entry_b); ("line-a", entry_a);
   ("line-a-again", entry_a_again); ("line-2", entry_2)].

Definition json_loads (s : string) : option Entry := get (strip s) decoded.

Definition json_dumps (e : Entry) : string := e_asset_id e.

Definition line (text : string) : string := String.append text LF.

Definition file_ab2 : list string := [line "line-b"; line "line-a"; line "line-2"].

Definition file_a : list string := [line "line-a"].

(** The same key on two lines. *)
Definition file_twice : list string := [line "line-a"; line "line-a-again"].

(** A blank line at the end. *)
Definition file_blank : list string := [line "line-a"; LF].

(** A listing with the cached asset of sub-01 and three assets of two
    subjects that are not in the cache. *)
Definition asset_a : Asset := mkAsset "asset-a" "sub-01/a.nwb".

Definition asset_3b : Asset := mkAsset "asset-3b" "sub-03/b.nwb".

Definition asset_3a : Asset := mkAsset "asset-3a" "sub-03/a.nwb".

Definition asset_4 : Asset := mkAsset "asset-4" "sub-04/x.nwb".

Definition listing (ds_id : string) : result (list Asset) :=
  Ok [asset_a; asset_3b; asset_3a; asset_4].

(** Labeling succeeds except on [asset_4]. *)
Definition process_asset (ds_id : string) (a : Asset) : option Entry :=
  if String.eqb (a_asset_id a) "asset-4" then None
  else Some (mkEntry ds_id (a_asset_id a) (a_path a) "ok" [("loc1", [cortex])]).

(** A listing in which the file of sub-01 has been uploaded again and has
    a new asset id. *)
Definition asset_a2 : Asset := mkAsset "asset-a2" "sub-01/a.nwb".

Definition listing_again (ds_id : string) : result (list Asset) :=
  Ok [asset_a2].

Definition process_fails (ds_id : string) (a : Asset) : option Entry := None.

(** A listing without assets: nothing to label. *)
Definition listing_empty (ds_id : string) : result (list Asset) := Ok [].

End Demo.

(* ================================================================== *)
(** * More notions for the runs of the two scripts *)
(* ================================================================== *)

Module Run.
Import Spec.

(** The lines of the cache file; none when the file is missing. *)
Definition lines_of (file : option (list string)) : list string :=
  match file with
  | Some lines => lines
  | None => []
  end.

(** The characters of a file whose lines are [lines]. *)
Definition text_of (lines : list string) : string :=
  fold_right String.append EmptyString lines.

(** The lines of a text, as the iteration over the open file gives them: a
    line ends after an end of line, which it keeps, and the characters after
    the last end of line, if there are any, make a last line without one. *)
Fixpoint read_lines (text : string) : list string :=
  match text with
  | EmptyString => []
  | String c rest =>
      if Ascii.eqb c (ascii_of_nat 10)
      then String c EmptyString :: read_lines rest
      else match read_lines rest with
           | [] => [String c EmptyString]
           | line :: more => String c line :: more
           end
  end.

(** The lines of the cache file after a run that wrote the texts [written]
    at its end: the characters the file had, followed by those written. *)
Definition file_after (file : option (list string)) (written : list string)
  : list string :=
  read_lines (String.append (text_of (lines_of file)) (text_of written)).

(** The line ends with an end of line and has no other. *)
Fixpoint terminated (line : string) : bool :=
  match line with
  | EmptyString => false
  | String c rest =>
      if Ascii.eqb c (ascii_of_nat 10) then is_empty rest
      else terminated rest
  end.

(** The call returned a result. *)
Definition succeeded (process_asset : string -> Asset -> option Entry)
  (c : string * Asset) : bool :=
  match process_asset (fst c) (snd c) with
  | Some _ => true
  | None => false
  end.

(** No dandiset of the index is without assets, and every asset of the index
    is that of an entry filed under its dandiset. *)
Definition assets_from_entries {T : Type} (did_of : T -> string)
  (entry_of : T -> Entry) (ts : list T) (idx : Index) : Prop :=
  forall did recs,
    In (did, recs) idx ->
    recs <> []
    /\ forall r, In r recs ->
                 exists t, In t ts /\ did_of t = did
                           /\ r = asset_record (entry_of t).

(** An entry with another status. *)
Definition with_status (status : string) (e : Entry) : Entry :=
  mkEntry (e_dandiset_id e) (e_asset_id e) (e_path e) status
    (e_matched_locations e).

(** The items of a table with other statuses. *)
Definition restatus (new_status : Entry -> string) (cache : Rescan.Cache)
  : Rescan.Cache :=
  map (fun item => (fst item, with_status (new_status (snd item)) (snd item)))
    cache.

(** The second state has the keys and the calls of the first. *)
Definition grows (st st' : Rescan.state) : Prop :=
  (forall k, contains k (Rescan.label_cache st) = true ->
             contains k (Rescan.label_cache st') = true)
  /\ (forall c, In c (Rescan.calls st) -> In c (Rescan.calls st')).

(** The table has one more item for every new entry, and the result of
    every call that returned one is in the table under the key of the asset
    it was called on. *)
Definition results_kept (process_asset : string -> Asset -> option Entry)
  (loaded : Rescan.Cache) (st : Rescan.state) : Prop :=
  List.length (Rescan.label_cache st)
  = List.length loaded + Rescan.total_new st
  /\ (forall item, In item loaded -> In item (Rescan.label_cache st))
  /\ forall c result,
       In c (Rescan.calls st) ->
       process_asset (fst c) (snd c) = Some result ->
       In ((fst c, a_asset_id (snd c)), result) (Rescan.label_cache st).

(** The ids of the region-match records of an entry. *)
Definition match_ids (e : Entry) : list Z :=
  map m_id (all_matches (e_matched_locations e)).

End Run.

Module Demo2.

(** A listing in which sub-01 has only an asset that is not in the cache. *)
Definition asset_b : Asset := mkAsset "asset-b" "sub-01/b.nwb".

Definition listing_b (ds_id : string) : result (list Asset) := Ok [asset_b].

(** A labeling routine and an encoder that go with the decoder of [Demo]:
    the result for [asset_b] is the entry of line-b. *)
Definition process_known (ds_id : string) (a : Asset) : option Entry :=
  if String.eqb ds_id Demo.ds1 && String.eqb (a_asset_id a) "asset-b"
  then Some Demo.entry_b
  else None.

Definition dumps_line (e : Entry) : string :=
  if String.eqb (e_asset_id e) "asset-b" then "line-b"
  else if String.eqb (e_asset_id e) "asset-2" then "line-2"
  else "line-a".

(** A listing that cannot be fetched. *)
Definition listing_fails (ds_id : string) : result (list Asset) :=
  Raise ListingError.

(** A file of blank lines. *)
Definition file_blanks : list string := [LF; String.append "  " LF].

(** A file whose last line has no end of line. *)
Definition file_open : list string := [Demo.line "line-a"; "line-2"].

(** A file with a line that does not decode. *)
Definition file_broken : list string := [Demo.line "line-a"; Demo.line "junk"].

(** The run of [rescan_all_subjects] over [Demo.file_a] with [Demo.listing]
    and [Demo.process_asset]: sub-01 is cached, sub-03 is labelled on its
    asset with the smallest path, the labeling of sub-04 fails. *)
Definition entry_3a : Entry :=
  mkEntry Demo.ds1 "asset-3a" "sub-03/a.nwb" "ok" [("loc1", [Demo.cortex])].

Definition loaded_a : Rescan.Cache := [(Spec.entry_key Demo.entry_a, Demo.entry_a)].

Definition run_state : Rescan.state :=
  Rescan.mkState
    [(Spec.entry_key Demo.entry_a, Demo.entry_a);
     ((Demo.ds1, "asset-3a"), entry_3a)]
    [Demo.line "asset-3a"]
    [(Demo.ds1, Demo.asset_3a); (Demo.ds1, Demo.asset_4)]
    1.

Definition run_index : Index :=
  [(Demo.ds1, [Spec.asset_record Demo.entry_a; Spec.asset_record entry_3a])].

End Demo2.

(* ================================================================== *)
(** * Properties of the built-ins *)
(* ================================================================== *)

Unset Implicit Arguments.

Module PyFacts.

(** ** The order of strings *)

Lemma N_of_ascii_inj (a b : ascii) : N_of_ascii a = N_of_ascii b -> a = b.
Proof.
  intros E. rewrite <- (ascii_N_embedding a), <- (ascii_N_embedding b).
  now rewrite E.
Qed.

Lemma ascii_compare_refl (a : ascii) : Ascii.compare a a = Eq.
Proof. unfold Ascii.compare. apply N.compare_refl. Qed.

Lemma compare_refl (s : string) : String.compare s s = Eq.
Proof.
  induction s as [| c s IH]; simpl; [reflexivity |].
  now rewrite ascii_compare_refl.
Qed.

Lemma compare_lt_trans (a b c : string) :
  String.compare a b = Lt -> String.compare b c = Lt -> String.compare a c = Lt.
Proof.
  revert b c.
  induction a as [| x a IH]; intros [| y b] [| z c]; simpl; try congruence.
  unfold Ascii.compare.
  destruct (N.compare_spec (N_of_ascii x) (N_of_ascii y)) as [Exy | Lxy | Gxy];
    try discriminate;
    destruct (N.compare_spec (N_of_ascii y) (N_of_ascii z)) as [Eyz | Lyz | Gyz];
    try discriminate; intros H1 H2.
  - rewrite Exy, Eyz, N.compare_refl. eauto.
  - rewrite Exy. now apply N.compare_lt_iff in Lyz as ->.
  - rewrite <- Eyz. now apply N.compare_lt_iff in Lxy as ->.
  - assert (L : (N_of_ascii x < N_of_ascii z)%N) by lia.
    now apply N.compare_lt_iff in L as ->.
Qed.

Lemma leb_refl (s : string) : String.leb s s = true.
Proof. unfold String.leb. now rewrite compare_refl. Qed.

Lemma leb_trans (a b c : string) :
  String.leb a b = true -> String.leb b c = true -> String.leb a c = true.
Proof.
  unfold String.leb.
  destruct (String.compare a b) eqn:Eab; try discriminate;
    destruct (String.compare b c) eqn:Ebc; try discriminate; intros _ _.
  - apply String.compare_eq_iff in Eab, Ebc. subst. now rewrite compare_refl.
  - apply String.compare_eq_iff in Eab. subst. now rewrite Ebc.
  - apply String.compare_eq_iff in Ebc. subst. now rewrite Eab.
  - now rewrite (compare_lt_trans _ _ _ Eab Ebc).
Qed.

Lemma leb_false_ltb (a b : string) :
  String.leb a b = false -> String.ltb b a = true.
Proof.
  unfold String.leb, String.ltb. rewrite (String.compare_antisym b a).
  now destruct (String.compare a b).
Qed.

Lemma ltb_leb (a b : string) : String.ltb a b = true -> String.leb a b = true.
Proof. unfold String.leb, String.ltb. now destruct (String.compare a b). Qed.

Lemma ltb_irrefl (a : string) : String.ltb a a = false.
Proof. unfold String.ltb. now rewrite compare_refl. Qed.

Lemma leb_ltb_trans (a b c : string) :
  String.leb a b = true -> String.ltb b c = true -> String.ltb a c = true.
Proof.
  unfold String.leb, String.ltb.
  destruct (String.compare a b) eqn:Eab; try discriminate;
    destruct (String.compare b c) eqn:Ebc; try discriminate; intros _ _.
  - apply String.compare_eq_iff in Eab. subst. now rewrite Ebc.
  - now rewrite (compare_lt_trans _ _ _ Eab Ebc).
Qed.

Lemma leb_neq_ltb (a b : string) :
  String.leb a b = true -> a <> b -> String.ltb a b = true.
Proof.
  unfold String.leb, String.ltb.
  destruct (String.compare a b) eqn:E; try discriminate; auto.
  apply String.compare_eq_iff in E. congruence.
Qed.


(** ** [sorted] *)

Section SortedFacts.
Context {A : Type} (key : A -> string).

Lemma insert_perm (x : A) (l : list A) : Permutation (insert key x l) (x :: l).
Proof.
  induction l as [| y l IH]; simpl; [reflexivity |].
  destruct (String.leb (key x) (key y)); [reflexivity |].
  rewrite IH. apply perm_swap.
Qed.

Lemma sorted_perm (l : list A) : Permutation (sorted key l) l.
Proof.
  induction l as [| x l IH]; simpl; [reflexivity |].
  rewrite insert_perm. now constructor.
Qed.

Lemma sorted_In (l : list A) (x : A) : In x (sorted key l) <-> In x l.
Proof.
  split; apply Permutation_in; [| symmetry]; apply sorted_perm.
Qed.

Lemma sorted_nil (l : list A) : sorted key l = [] -> l = [].
Proof.
  intros E. apply Permutation_nil. rewrite <- E. apply sorted_perm.
Qed.

Lemma sorted_NoDup (l : list A) : NoDup l -> NoDup (sorted key l).
Proof.
  intros N. eapply Permutation_NoDup; [| exact N]. symmetry. apply sorted_perm.
Qed.

Lemma insert_ordered (x : A) (l : list A) :
  StronglySorted (key_le key) l -> StronglySorted (key_le key) (insert key x l).
Proof.
  induction 1 as [| y l S IH F]; simpl.
  - repeat constructor.
  - destruct (String.leb (key x) (key y)) eqn:E.
    + constructor; [now constructor |].
      constructor; [exact E |].
      eapply Forall_impl; [| exact F].
      intros z Hz. eapply leb_trans; [exact E | exact Hz].
    + constructor; [exact IH |].
      eapply Permutation_Forall; [symmetry; apply insert_perm |].
      constructor; [| exact F].
      apply ltb_leb, leb_false_ltb, E.
Qed.

Lemma sorted_ordered (l : list A) : StronglySorted (key_le key) (sorted key l).
Proof.
  induction l as [| x l IH]; simpl; [constructor |].
  now apply insert_ordered.
Qed.

Lemma sorted_head (l : list A) (x : A) (rest : list A) :
  sorted key l = x :: rest -> first_smallest key x l.
Proof.
  revert x rest.
  induction l as [| a l IH]; intros x rest E; [discriminate |].
  simpl in E.
  destruct (sorted key l) as [| y s] eqn:Es.
  - apply sorted_nil in Es. subst l. simpl in E. injection E as <- _.
    exists [], []. repeat split; constructor.
  - destruct (IH y s eq_refl) as (pre & post & El & Fpre & Fpost).
    simpl in E.
    destruct (String.leb (key a) (key y)) eqn:Le; injection E as <- _.
    + exists [], l. repeat split; [constructor |].
      subst l. apply Forall_app. split.
      * eapply Forall_impl; [| exact Fpre]. intros z Hz.
        eapply leb_trans; [exact Le | apply ltb_leb, Hz].
      * constructor; [exact Le |].
        eapply Forall_impl; [| exact Fpost]. intros z Hz.
        eapply leb_trans; [exact Le | exact Hz].
    + exists (a :: pre), post. subst l. repeat split; [| exact Fpost].
      constructor; [| exact Fpre]. apply leb_false_ltb, Le.
Qed.

Lemma first_smallest_In (x : A) (l : list A) : first_smallest key x l -> In x l.
Proof.
  intros (pre & post & -> & _). apply in_or_app. right. now left.
Qed.

Lemma first_smallest_le (x : A) (l : list A) :
  first_smallest key x l -> forall y, In y l -> key_le key x y.
Proof.
  intros (pre & post & -> & Fpre & Fpost) y Hy.
  apply in_app_or in Hy. destruct Hy as [Hy | [<- | Hy]].
  - apply ltb_leb. revert y Hy. now apply Forall_forall.
  - apply leb_refl.
  - revert y Hy. now apply Forall_forall.
Qed.

Lemma first_smallest_unique (x y : A) (l : list A) :
  first_smallest key x l -> first_smallest key y l -> x = y.
Proof.
  intros (p1 & q1 & E1 & Fp1 & Fq1) (p2 & q2 & E2 & Fp2 & Fq2).
  subst l. revert p2 E2 Fp2.
  induction p1 as [| a p1 IH]; intros [| b p2] E2 Fp2; simpl in E2.
  - now injection E2.
  - injection E2 as -> ->. inversion_clear Fp2 as [| ? ? Hlt _].
    assert (Hle : key_le key b y).
    { rewrite Forall_forall in Fq1. apply Fq1.
      apply in_or_app. right. now left. }
    unfold key_lt, key_le in *.
    pose proof (leb_ltb_trans _ _ _ Hle Hlt) as Hbb.
    now rewrite ltb_irrefl in Hbb.
  - injection E2 as <- <-. inversion_clear Fp1 as [| ? ? Hlt _].
    assert (Hle : key_le key a x).
    { rewrite Forall_forall in Fq2. apply Fq2.
      apply in_or_app. right. now left. }
    unfold key_lt, key_le in *.
    pose proof (leb_ltb_trans _ _ _ Hle Hlt) as Hbb.
    now rewrite ltb_irrefl in Hbb.
  - injection E2 as -> E2. inversion_clear Fp1. inversion_clear Fp2.
    eapply IH; eauto.
Qed.

Lemma sorted_cons_exists (l : list A) :
  l <> [] -> exists x rest, sorted key l = x :: rest.
Proof.
  intros N. destruct (sorted key l) as [| x rest] eqn:E.
  - now apply sorted_nil in E.
  - eauto.
Qed.
End SortedFacts.

Lemma insert_map {A B : Type} (key : B -> string) (f : A -> B) (x : A)
(l : list A) :
insert key (f x) (map f l) = map f (insert (fun a => key (f a)) x l).
Proof.
induction l as [| y l IH]; simpl; [reflexivity |].
destruct (String.leb (key (f x)) (key (f y))); simpl; [reflexivity |].
now rewrite IH.
Qed.

Lemma sorted_map {A B : Type} (key : B -> string) (f : A -> B) (l : list A) :
sorted key (map f l) = map f (sorted (fun a => key (f a)) l).
Proof.
induction l as [| x l IH]; simpl; [reflexivity |].
now rewrite IH, insert_map.
Qed.

Lemma sorted_ext {A : Type} (k1 k2 : A -> string) (l : list A) :
(forall x, k1 x = k2 x) -> sorted k1 l = sorted k2 l.
Proof.
intros E. induction l as [| x l IH]; simpl; [reflexivity |].
rewrite IH. generalize (sorted k2 l). intros s.
induction s as [| y s IHs]; simpl; [reflexivity |].
now rewrite !E, IHs.
Qed.

(** Distinct strings sorted are strictly ascending. *)
Lemma sorted_strict (l : list string) :
NoDup l ->
StronglySorted (fun a b => String.ltb a b = true) (sorted (fun s => s) l).
Proof.
intros N.
pose proof (sorted_NoDup (fun s => s) l N) as N'.
pose proof (sorted_ordered (fun s => s) l) as S.
induction S as [| x s S IH F]; [constructor |].
inversion_clear N' as [| ? ? Hx Ns].
constructor; [now apply IH |].
rewrite Forall_forall in F |- *. intros y Hy.
apply leb_neq_ltb; [now apply F |]. intros ->. contradiction.
Qed.

Lemma sorted_set_In (xs : list string) (x : string) :
In x (sorted_set xs) <-> In x xs.
Proof.
unfold sorted_set. rewrite sorted_In. apply nodup_In.
Qed.

Lemma sorted_set_NoDup (xs : list string) : NoDup (sorted_set xs).
Proof. apply sorted_NoDup, NoDup_nodup. Qed.

Lemma sorted_set_strict (xs : list string) :
StronglySorted (fun a b => String.ltb a b = true) (sorted_set xs).
Proof. apply sorted_strict, NoDup_nodup. Qed.

(** ** [for] loops *)

Lemma for_each_app {A S : Type} (xs ys : list A) (body : S -> A -> result S)
  (s : S) :
  for_each (xs ++ ys) body s = bind (for_each xs body s) (for_each ys body).
Proof.
  revert s. induction xs as [| x xs IH]; intros s; simpl; [reflexivity |].
  destruct (body s x); simpl; [apply IH | reflexivity].
Qed.

Lemma for_each_pure {A S : Type} (xs : list A) (f : S -> A -> S) (s : S) :
  for_each xs (fun s x => Ok (f s x)) s = Ok (fold_left f xs s).
Proof.
  revert s. induction xs as [| x xs IH]; intros s; simpl; [reflexivity |].
  apply IH.
Qed.

(** A property kept by the body is kept by the loop. *)
Lemma for_each_invariant {A S : Type} (P : S -> Prop) (xs : list A)
  (body : S -> A -> result S) :
  (forall s x s', In x xs -> P s -> body s x = Ok s' -> P s') ->
  forall s s', P s -> for_each xs body s = Ok s' -> P s'.
Proof.
  induction xs as [| x xs IH]; intros Hbody s s' Hs E; simpl in E.
  - now injection E as <-.
  - destruct (body s x) as [s1 |] eqn:E1; simpl in E; [| discriminate].
    apply (IH (fun s x s' Hin => Hbody s x s' (or_intror Hin)) s1 s');
      [| exact E].
    apply (Hbody s x s1); auto. now left.
Qed.


Lemma bind_Ok {A B : Type} (m : result A) (k : A -> result B) (b : B) :
  bind m k = Ok b -> exists a, m = Ok a /\ k a = Ok b.
Proof. destruct m as [a |]; simpl; [eauto | discriminate]. Qed.

(** ** Dictionaries *)

Section DictFacts.
Context {K V : Type} `{EqDec K}.
Implicit Types (d : dict K V) (k : K) (v : V).

Lemma get_set_same k v d : get k (set k v d) = Some v.
Proof.
  induction d as [| [k' v'] d IH]; simpl.
  - now destruct (eq_dec k k).
  - destruct (eq_dec k k') as [E | N]; simpl.
    + now destruct (eq_dec k k').
    + now destruct (eq_dec k k').
Qed.

Lemma get_set_other k k' v d : k <> k' -> get k' (set k v d) = get k' d.
Proof.
  intros N. induction d as [| [k1 v1] d IH]; simpl.
  - destruct (eq_dec k' k); congruence.
  - destruct (eq_dec k k1) as [E | N1]; simpl.
    + subst k1. destruct (eq_dec k' k); congruence.
    + now rewrite IH.
Qed.

Lemma get_In k v d : get k d = Some v -> In (k, v) d.
Proof.
  induction d as [| [k' v'] d IH]; simpl; [discriminate |].
  destruct (eq_dec k k') as [<- | N].
  - intros E. injection E as ->. now left.
  - intros E. right. auto.
Qed.

Lemma get_None_keys k d : get k d = None <-> ~ In k (keys d).
Proof.
  induction d as [| [k' v'] d IH]; simpl.
  - tauto.
  - destruct (eq_dec k k') as [<- | N].
    + split; [discriminate | intros F; exfalso; apply F; now left].
    + rewrite IH. split.
      * intros F [E | I]; [congruence | tauto].
      * intros F I. apply F. now right.
Qed.

Lemma contains_keys k d : contains k d = true <-> In k (keys d).
Proof.
  unfold contains. destruct (get k d) eqn:E.
  - split; [intros _ | reflexivity].
    apply get_In in E. apply (in_map fst) in E. exact E.
  - apply get_None_keys in E. split; [discriminate | contradiction].
Qed.

Lemma contains_false_keys k d : contains k d = false <-> ~ In k (keys d).
Proof.
  rewrite <- contains_keys. destruct (contains k d); split; congruence.
Qed.

Lemma In_get_NoDup k v d : NoDup (keys d) -> In (k, v) d -> get k d = Some v.
Proof.
  induction d as [| [k' v'] d IH]; simpl; [contradiction |].
  intros N I. inversion_clear N as [| ? ? Hk N'].
  destruct I as [E | I].
  - injection E as -> ->. now destruct (eq_dec k k).
  - destruct (eq_dec k k') as [<- | Nk]; [| auto].
    exfalso. apply Hk. apply (in_map fst) in I. exact I.
Qed.

(** A new key goes to the end; a key of the dictionary keeps its place. *)
Lemma set_fresh k v d : ~ In k (keys d) -> set k v d = d ++ [(k, v)].
Proof.
  induction d as [| [k' v'] d IH]; simpl; [reflexivity |].
  intros N. destruct (eq_dec k k') as [E | _].
  - exfalso. apply N. now left.
  - rewrite IH; [reflexivity |]. intros I. apply N. now right.
Qed.

Lemma keys_set_present k v d : In k (keys d) -> keys (set k v d) = keys d.
Proof.
  induction d as [| [k' v'] d IH]; simpl; [contradiction |].
  intros I. destruct (eq_dec k k') as [E | N]; simpl; [reflexivity |].
  f_equal. apply IH. destruct I; congruence.
Qed.

Lemma In_keys_set k k' v d :
  In k' (keys (set k v d)) <-> k' = k \/ In k' (keys d).
Proof.
  destruct (in_dec eq_dec k (keys d)) as [I | N].
  - rewrite keys_set_present by exact I. split; [tauto |].
    intros [-> | ?]; assumption.
  - rewrite set_fresh by exact N. unfold keys. rewrite map_app, in_app_iff.
    simpl. split; [intros [? | [<- | []]]; auto | intros [-> | ?]; auto].
Qed.

Lemma NoDup_keys_set k v d : NoDup (keys d) -> NoDup (keys (set k v d)).
Proof.
  intros ND. destruct (in_dec eq_dec k (keys d)) as [I | N].
  - now rewrite keys_set_present.
  - rewrite set_fresh by exact N. unfold keys. rewrite map_app. simpl.
    apply NoDup_app; [exact ND | repeat constructor; tauto |].
    intros x Hx [<- | []]. exact (N Hx).
Qed.

Lemma In_set k v d (p : K * V) :
  In p (set k v d) -> p = (k, v) \/ In p d.
Proof.
  induction d as [| [k' v'] d IH]; simpl.
  - intros [<- | []]. now left.
  - destruct (eq_dec k k') as [<- | N]; simpl.
    + intros [<- | I]; auto.
    + intros [<- | I]; auto. destruct (IH I); auto.
Qed.

Lemma In_set_other k v d (p : K * V) :
  In p d -> fst p <> k -> In p (set k v d).
Proof.
  induction d as [| [k' v'] d IH]; simpl; [contradiction |].
  intros [<- | I] N; simpl in *.
  - destruct (eq_dec k k'); [congruence | now left].
  - destruct (eq_dec k k'); right; auto.
Qed.

Lemma In_set_new k v d : In (k, v) (set k v d).
Proof. apply get_In, get_set_same. Qed.

Lemma get_default_set_same k v d (dflt : V) :
  get_default k dflt (set k v d) = v.
Proof. unfold get_default. now rewrite get_set_same. Qed.

Lemma get_default_set_other k k' v d (dflt : V) :
  k <> k' -> get_default k' dflt (set k v d) = get_default k' dflt d.
Proof. intros N. unfold get_default. now rewrite get_set_other. Qed.
End DictFacts.

End PyFacts.

(* ================================================================== *)
(** * Subjects *)
(* ================================================================== *)

Module SubjectFacts.
Import Spec.

Lemma split_head (c : ascii) (s : string) :
  exists parts, split c s = before c s :: parts.
Proof.
  induction s as [| a s [parts IH]]; simpl.
  - now exists [].
  - destruct (Ascii.eqb a c).
    + now exists (split c s).
    + rewrite IH. now exists parts.
Qed.

Lemma split_length (c : ascii) (s : string) :
  Nat.ltb 1 (List.length (split c s)) = occurs c s.
Proof.
  induction s as [| a s IH]; simpl; [reflexivity |].
  destruct (Ascii.eqb a c); simpl.
  - destruct (split_head c s) as [parts ->]. reflexivity.
  - destruct (split_head c s) as [parts E]. rewrite E in IH |- *.
    exact IH.
Qed.

Lemma extract_subject_eq (path : string) :
  Rescan.extract_subject path = subject_of path.
Proof.
  unfold Rescan.extract_subject, subject_of.
  rewrite split_length.
  destruct (occurs slash path).
  - now destruct (split_head slash path) as [parts ->].
  - now destruct (split_head underscore path) as [parts ->].
Qed.

(** [before] is the segment in front of the first occurrence. *)
Lemma before_occurs (c : ascii) (s : string) :
  occurs c s = true ->
  exists rest, s = String.append (before c s) (String c rest)
               /\ occurs c (before c s) = false.
Proof.
  induction s as [| a s IH]; simpl; [discriminate |].
  destruct (Ascii.eqb a c) eqn:E; simpl.
  - intros _. apply Ascii.eqb_eq in E. subst a. now exists s.
  - intros O. destruct (IH O) as (rest & Es & N).
    exists rest. rewrite E, N. split; [now rewrite <- Es | reflexivity].
Qed.

Lemma before_absent (c : ascii) (s : string) :
  occurs c s = false -> before c s = s.
Proof.
  induction s as [| a s IH]; simpl; [reflexivity |].
  destruct (Ascii.eqb a c); simpl; [discriminate |].
  intros O. now rewrite IH.
Qed.

End SubjectFacts.

(* ================================================================== *)
(** * Regions: filtering and deduplication *)
(* ================================================================== *)

Module RegionFacts.
Import Spec.

Lemma filter_ids_excluded (i : Z) : id_in i Rescan.FILTER_IDS = excluded i.
Proof.
  unfold id_in, Rescan.FILTER_IDS, excluded. simpl.
  rewrite orb_false_r. apply orb_comm.
Qed.

Lemma scan_app (seen : list Z) (a b : list Match) :
  scan seen (a ++ b) =
  (fst (scan (fst (scan seen a)) b),
   snd (scan seen a) ++ snd (scan (fst (scan seen a)) b)).
Proof.
  revert seen. induction a as [| m a IH]; intros seen; simpl.
  - now destruct (scan seen b).
  - destruct (negb (excluded (m_id m)) && negb (id_in (m_id m) seen)).
    + rewrite IH. destruct (scan (m_id m :: seen) a) as [s r]. reflexivity.
    + apply IH.
Qed.

(** *** rescan_all_subjects: one loop with the two tests *)

Lemma rescan_inner (ms : list Match) (seen : list Z) (regions : list Region) :
  fold_left rescan_step ms (seen, regions) =
  (fst (scan seen ms), regions ++ snd (scan seen ms)).
Proof.
  revert seen regions.
  induction ms as [| m ms IH]; intros seen regions; cbn [fold_left scan].
  - simpl. now rewrite app_nil_r.
  - unfold rescan_step at 2. rewrite filter_ids_excluded.
    destruct (negb (excluded (m_id m)) && negb (id_in (m_id m) seen)).
    + rewrite IH. destruct (scan (m_id m :: seen) ms) as [s r]. simpl.
      now rewrite <- app_assoc.
    + apply IH.
Qed.

Lemma rescan_outer (matched : dict string (list Match)) (seen : list Z)
  (regions : list Region) :
  fold_left (fun acc (item : string * list Match) =>
               fold_left rescan_step (snd item) acc)
    matched (seen, regions) =
  (fst (scan seen (all_matches matched)),
   regions ++ snd (scan seen (all_matches matched))).
Proof.
  revert seen regions.
  induction matched as [| [k ms] matched IH]; intros seen regions.
  - simpl. now rewrite app_nil_r.
  - cbn [fold_left snd]. rewrite rescan_inner, IH.
    unfold all_matches. cbn [map concat snd]. rewrite scan_app.
    cbn [fst snd]. now rewrite app_assoc.
Qed.

Lemma rescan_regions_scan (matched : dict string (list Match)) :
  Rescan.regions_of matched = snd (scan [] (all_matches matched)).
Proof.
  unfold Rescan.regions_of.
  change (snd (fold_left (fun acc (item : string * list Match) =>
                            fold_left rescan_step (snd item) acc)
                 matched ([], [])) = snd (scan [] (all_matches matched))).
  now rewrite rescan_outer.
Qed.

(** *** generate_dandiset_assets: filter, then deduplicate *)

Lemma generate_inner (ms : list Match) (regions : list Region) :
  fold_left
    (fun regions m =>
       if negb (id_in (m_id m) Generate.FILTER_IDS)
       then regions ++ [mkRegion (m_id m) (m_acronym m) (m_name m)]
       else regions)
    ms regions =
  regions ++ map region_of (filter allowed ms).
Proof.
  revert regions.
  induction ms as [| m ms IH]; intros regions; cbn [fold_left filter].
  - simpl. now rewrite app_nil_r.
  - rewrite IH. change Generate.FILTER_IDS with Rescan.FILTER_IDS.
    rewrite filter_ids_excluded. unfold allowed.
    destruct (negb (excluded (m_id m))); simpl; [| reflexivity].
    now rewrite <- app_assoc.
Qed.

Lemma generate_regions_filter (matched : dict string (list Match)) :
  Generate.regions_of matched =
  map region_of (filter allowed (all_matches matched)).
Proof.
  unfold Generate.regions_of.
  enough (G : forall regions,
             fold_left
               (fun regions (item : string * list Match) =>
                  fold_left
                    (fun regions m =>
                       if negb (id_in (m_id m) Generate.FILTER_IDS)
                       then regions ++
                            [mkRegion (m_id m) (m_acronym m) (m_name m)]
                       else regions)
                    (snd item) regions)
               matched regions =
             regions ++ map region_of (filter allowed (all_matches matched)))
    by apply (G []).
  induction matched as [| [k ms] matched IH]; intros regions.
  - simpl. now rewrite app_nil_r.
  - cbn [fold_left snd]. rewrite generate_inner, IH.
    unfold all_matches. cbn [map concat snd].
    now rewrite filter_app, map_app, app_assoc.
Qed.

Lemma generate_unique_scan (ms : list Match) (seen : list Z)
  (unique : list Region) :
  Forall (fun m => allowed m = true) ms ->
  fold_left
    (fun (acc : list Z * list Region) r =>
       let (seen, unique_regions) := acc in
       if negb (id_in (r_id r) seen)
       then (r_id r :: seen, unique_regions ++ [r])
       else acc)
    (map region_of ms) (seen, unique) =
  (fst (scan seen ms), unique ++ snd (scan seen ms)).
Proof.
  intros F. revert seen unique.
  induction F as [| m ms Hm F IH]; intros seen unique; simpl.
  - now rewrite app_nil_r.
  - unfold allowed in Hm. rewrite Hm. simpl.
    destruct (negb (id_in (m_id m) seen)).
    + rewrite IH. destruct (scan (m_id m :: seen) ms) as [s r]. simpl.
      now rewrite <- app_assoc.
    + apply IH.
Qed.

Lemma scan_filter_allowed (ms : list Match) (seen : list Z) :
  scan seen (filter allowed ms) = scan seen ms.
Proof.
  revert seen. induction ms as [| m ms IH]; intros seen; simpl;
    [reflexivity |].
  unfold allowed at 1. destruct (negb (excluded (m_id m))) eqn:E; simpl.
  - rewrite E. simpl. destruct (negb (id_in (m_id m) seen)); now rewrite IH.
  - apply IH.
Qed.

Lemma generate_regions_scan (matched : dict string (list Match)) :
  Generate.unique_regions_of (Generate.regions_of matched) =
  snd (scan [] (all_matches matched)).
Proof.
  rewrite generate_regions_filter. unfold Generate.unique_regions_of.
  rewrite generate_unique_scan.
  - simpl. now rewrite scan_filter_allowed.
  - apply Forall_forall. intros m Hm. now apply filter_In in Hm.
Qed.

(** *** The pass and the positions *)

Lemma id_in_spec (i : Z) (s : list Z) : id_in i s = true <-> In i s.
Proof.
  unfold id_in. rewrite existsb_exists. split.
  - intros (x & Hx & E). apply Z.eqb_eq in E. now subst.
  - intros Hi. exists i. split; [exact Hi | apply Z.eqb_refl].
Qed.

Lemma scan_positions (ms pre full : list Match) (seen : list Z) :
  full = pre ++ ms ->
  (forall i, excluded i = false ->
             (In i seen <-> In i (map m_id pre))) ->
  map (fun im : nat * Match => region_of (snd im))
    (filter (kept full) (combine (seq (List.length pre) (List.length ms)) ms))
  = snd (scan seen ms).
Proof.
  revert pre seen.
  induction ms as [| m ms IH]; intros pre seen Efull Hseen; [reflexivity |].
  cbn [List.length seq combine filter scan].
  assert (Hpre : seen_before full (List.length pre) m = id_in (m_id m) seen
                 \/ excluded (m_id m) = true).
  { destruct (excluded (m_id m)) eqn:Ex; [now right | left].
    unfold seen_before. subst full.
    rewrite firstn_app, firstn_all, Nat.sub_diag. simpl. rewrite app_nil_r.
    apply eq_true_iff_eq. rewrite id_in_spec, (Hseen _ Ex), existsb_exists.
    rewrite in_map_iff. split.
    - intros (x & Hx & E). apply Z.eqb_eq in E. now exists x.
    - intros (x & E & Hx). exists x. split; [exact Hx | now apply Z.eqb_eq]. }
  assert (Enext : full = (pre ++ [m]) ++ ms)
    by now rewrite <- app_assoc.
  assert (Hlen : S (List.length pre) = List.length (pre ++ [m]))
    by (rewrite length_app; simpl; lia).
  unfold kept at 1. cbn [fst snd].
  destruct Hpre as [-> | Ex].
  - destruct (negb (excluded (m_id m)) && negb (id_in (m_id m) seen)) eqn:K.
    + rewrite Hlen.
      destruct (scan (m_id m :: seen) ms) as [s r] eqn:Es.
      cbn [map snd]. f_equal.
      rewrite (IH (pre ++ [m]) (m_id m :: seen) Enext); [now rewrite Es |].
      intros i Hi. rewrite map_app, in_app_iff. simpl.
      rewrite (Hseen i Hi). tauto.
    + rewrite Hlen. apply (IH (pre ++ [m]) seen Enext).
      intros i Hi. rewrite map_app, in_app_iff. simpl.
      rewrite (Hseen i Hi). split; [tauto |].
      intros [H | [E | []]]; [exact H |]. subst i.
      rewrite Hi in K. simpl in K. apply negb_false_iff in K.
      apply id_in_spec in K. now apply (Hseen _ Hi).
  - rewrite Ex. simpl. rewrite Hlen. apply (IH (pre ++ [m]) seen Enext).
    intros i Hi. rewrite map_app, in_app_iff. simpl.
    rewrite (Hseen i Hi). split; [tauto |].
    intros [H | [E | []]]; [exact H | congruence].
Qed.

Lemma first_seen_regions_scan (ms : list Match) :
  first_seen_regions ms = snd (scan [] ms).
Proof.
  unfold first_seen_regions.
  apply (scan_positions ms [] ms []); [reflexivity |].
  intros i _. simpl. tauto.
Qed.

Lemma scan_kept (ms : list Match) (seen : list Z) :
  Forall (fun r => excluded (r_id r) = false /\ ~ In (r_id r) seen)
    (snd (scan seen ms))
  /\ NoDup (map r_id (snd (scan seen ms))).
Proof.
  revert seen. induction ms as [| m ms IH]; intros seen; simpl.
  - split; constructor.
  - destruct (negb (excluded (m_id m)) && negb (id_in (m_id m) seen)) eqn:K;
      [| apply IH].
    destruct (IH (m_id m :: seen)) as [F N].
    destruct (scan (m_id m :: seen) ms) as [s r]. simpl in *.
    apply andb_prop in K. destruct K as [K1 K2].
    apply negb_true_iff in K1, K2.
    split.
    + constructor.
      * split; [exact K1 |]. intros I. apply id_in_spec in I. simpl in I. congruence.
      * eapply Forall_impl; [| exact F]. simpl. intros x [Hx Hn].
        split; [exact Hx | tauto].
    + constructor; [| exact N]. rewrite in_map_iff.
      intros (x & Ex & Hx). rewrite Forall_forall in F.
      destruct (F x Hx) as [_ Hn]. apply Hn. now left.
Qed.

End RegionFacts.

(* ================================================================== *)
(** * Grouping and the choice of one asset per subject *)
(* ================================================================== *)

Module IndexFacts.
Import Spec PyFacts.

(** ** [defaultdict(list)] *)

Section Append.
Context {X : Type}.
Implicit Types (d : dict string (list X)) (k : string) (x : X).

Lemma dd_append_same k x d :
  get_default k [] (dd_append k x d) = get_default k [] d ++ [x].
Proof. unfold dd_append. apply get_default_set_same. Qed.

Lemma dd_append_other k k' x d :
  k <> k' -> get_default k' [] (dd_append k x d) = get_default k' [] d.
Proof. intros N. unfold dd_append. now apply get_default_set_other. Qed.

Lemma dd_append_keys k k' x d :
  In k' (keys (dd_append k x d)) <-> k' = k \/ In k' (keys d).
Proof. unfold dd_append. apply In_keys_set. Qed.

Lemma dd_append_NoDup k x d : NoDup (keys d) -> NoDup (keys (dd_append k x d)).
Proof. unfold dd_append. apply NoDup_keys_set. Qed.

End Append.

(** A one-level grouping: the listing of a dandiset by subject. *)
Section Group1.
Context {T X : Type}.
Variable kf : T -> string.
Variable vf : T -> X.

Lemma group1_get (ts : list T) (d0 : dict string (list X)) (k : string) :
  get_default k [] (fold_left (fun d t => dd_append (kf t) (vf t) d) ts d0) =
  get_default k [] d0 ++ map vf (filter (fun t => String.eqb (kf t) k) ts).
Proof.
  revert d0. induction ts as [| t ts IH]; intros d0; simpl.
  - now rewrite app_nil_r.
  - rewrite IH.
    destruct (String.eqb_spec (kf t) k) as [<- | N].
    + rewrite dd_append_same. simpl. now rewrite <- app_assoc.
    + now rewrite dd_append_other.
Qed.

Lemma group1_keys (ts : list T) (d0 : dict string (list X)) (k : string) :
  In k (keys (fold_left (fun d t => dd_append (kf t) (vf t) d) ts d0)) <->
  In k (keys d0) \/ exists t, In t ts /\ kf t = k.
Proof.
  revert d0. induction ts as [| t ts IH]; intros d0; simpl.
  - split; [auto | intros [? | (t & [] & _)]; assumption].
  - rewrite IH, dd_append_keys. split.
    + intros [[-> | I] | (t' & I & E)]; eauto.
    + intros [I | (t' & [<- | I] & E)]; eauto.
Qed.

Lemma group1_NoDup (ts : list T) (d0 : dict string (list X)) :
  NoDup (keys d0) -> NoDup (keys (fold_left (fun d t => dd_append (kf t) (vf t) d) ts d0)).
Proof.
  revert d0. induction ts as [| t ts IH]; intros d0 N; simpl; [exact N |].
  apply IH. now apply dd_append_NoDup.
Qed.

End Group1.

(** The two-level grouping of the index. *)
Section Group2.
Context {T X : Type}.
Variable did_of : T -> string.
Variable subj_of : T -> string.
Variable val_of : T -> X.

Lemma group2_get (ts : list T) (d0 : dict string (dict string (list X)))
  (did : string) :
  get_default did [] (fold_left (group_step did_of subj_of val_of) ts d0) =
  fold_left (fun d t => dd_append (subj_of t) (val_of t) d)
    (filter (fun t => String.eqb (did_of t) did) ts)
    (get_default did [] d0).
Proof.
  revert d0.
  induction ts as [| t ts IH]; intros d0; cbn [fold_left filter];
    [reflexivity |].
  rewrite IH. unfold group_step.
  destruct (String.eqb_spec (did_of t) did) as [<- | N].
  - now rewrite get_default_set_same.
  - now rewrite get_default_set_other.
Qed.

Lemma group2_keys (ts : list T) (d0 : dict string (dict string (list X)))
  (did : string) :
  In did (keys (fold_left (group_step did_of subj_of val_of) ts d0)) <->
  In did (keys d0) \/ exists t, In t ts /\ did_of t = did.
Proof.
  revert d0. induction ts as [| t ts IH]; intros d0; cbn [fold_left].
  - simpl. split; [auto | intros [? | (t & [] & _)]; assumption].
  - rewrite IH. unfold group_step. rewrite In_keys_set. simpl. split.
    + intros [[-> | I] | (t' & I & E)]; eauto.
    + intros [I | (t' & [<- | I] & E)]; eauto.
Qed.

Lemma group2_NoDup (ts : list T) (d0 : dict string (dict string (list X))) :
  NoDup (keys d0) -> NoDup (keys (fold_left (group_step did_of subj_of val_of) ts d0)).
Proof.
  revert d0.
  induction ts as [| t ts IH]; intros d0 N; cbn [fold_left]; [exact N |].
  apply IH. now apply NoDup_keys_set.
Qed.

Lemma filter_filter_and (f g : T -> bool) (ts : list T) :
  filter g (filter f ts) = filter (fun t => f t && g t) ts.
Proof.
  induction ts as [| t ts IH]; simpl; [reflexivity |].
  destruct (f t); simpl; [destruct (g t) |]; now rewrite IH.
Qed.

(** The dandisets of the grouping, and the subjects and the groups of each
    of them. *)
Lemma grouped_dandisets (ts : list T) (did : string) :
  In did (keys (grouped did_of subj_of val_of ts)) <->
  exists t, In t ts /\ did_of t = did.
Proof.
  unfold grouped. rewrite group2_keys. simpl. tauto.
Qed.

Lemma grouped_NoDup (ts : list T) :
  NoDup (keys (grouped did_of subj_of val_of ts)).
Proof. apply group2_NoDup. constructor. Qed.

Lemma grouped_subjects (ts : list T) (did subj : string) :
  In subj (keys (get_default did [] (grouped did_of subj_of val_of ts))) <->
  exists t, In t ts /\ did_of t = did /\ subj_of t = subj.
Proof.
  unfold grouped. rewrite group2_get, group1_keys. simpl. split.
  - intros [[] | (t & I & E)]. apply filter_In in I. destruct I as [I D].
    apply String.eqb_eq in D. eauto.
  - intros (t & I & D & E). right. exists t. split; [| exact E].
    apply filter_In. split; [exact I | now apply String.eqb_eq].
Qed.

Lemma grouped_subjects_NoDup (ts : list T) (did : string) :
  NoDup (keys (get_default did [] (grouped did_of subj_of val_of ts))).
Proof.
  unfold grouped. rewrite group2_get. apply group1_NoDup. constructor.
Qed.

Lemma grouped_group (ts : list T) (did subj : string) :
  get_default subj [] (get_default did [] (grouped did_of subj_of val_of ts))
  = map val_of (members did_of subj_of ts did subj).
Proof.
  unfold grouped, members. rewrite group2_get, group1_get. simpl.
  now rewrite filter_filter_and.
Qed.

End Group2.

(** ** The loop that keeps one asset per subject *)

Section BuildFacts.
Context {X : Type}.
Variable key : X -> string.
Variable mk : X -> IndexAsset.

Lemma build_inner (g : string -> list X) (subjs : list string)
  (acc : list IndexAsset) :
  (forall s, In s subjs -> g s <> []) ->
  for_each subjs
    (fun assets subj =>
       match sorted key (g subj) with
       | x :: _ => Ok (assets ++ [mk x])
       | [] => Raise IndexError
       end)
    acc
  = Ok (acc ++ flat_map (fun subj => pick key mk (g subj)) subjs).
Proof.
  revert acc. induction subjs as [| s subjs IH]; intros acc Hne; simpl.
  - now rewrite app_nil_r.
  - unfold pick at 1.
    destruct (sorted_cons_exists key (g s)) as (x & rest & ->).
    + apply Hne. now left.
    + simpl. rewrite IH; [now rewrite <- app_assoc |].
      intros s' Hs'. apply Hne. now right.
Qed.

Lemma build_outer (inner : string -> result (list IndexAsset))
  (F : string -> list IndexAsset) (dids : list string) (acc : Index) :
  NoDup dids ->
  (forall did, In did dids -> ~ In did (keys acc)) ->
  (forall did, In did dids -> inner did = Ok (F did)) ->
  for_each dids
    (fun (result : Index) did =>
       bind (inner did) (fun assets => Ok (set did assets result)))
    acc
  = Ok (acc ++ map (fun did => (did, F did)) dids).
Proof.
  revert acc. induction dids as [| did dids IH]; intros acc N Hacc Hin; simpl.
  - now rewrite app_nil_r.
  - inversion_clear N as [| ? ? Hd N'].
    rewrite (Hin did (or_introl eq_refl)). simpl.
    rewrite set_fresh by (apply Hacc; now left).
    rewrite IH; [now rewrite <- app_assoc | exact N' | |].
    + intros d Hd'. unfold keys. rewrite map_app, in_app_iff. simpl.
      intros [I | [E | []]].
      * apply (Hacc d); [now right | exact I].
      * congruence.
    + intros d Hd'. apply Hin. now right.
Qed.

(** Over a grouping without empty groups the loop does not raise, and its
    result is [index_of]. *)
Lemma build_index_of (d : dict string (dict string (list X))) :
  NoDup (keys d) ->
  (forall did subj,
      In did (keys d) -> In subj (keys (get_default did [] d)) ->
      get_default subj [] (get_default did [] d) <> []) ->
  build key mk d = Ok (index_of key mk d).
Proof.
  intros N Hne. unfold build, index_of.
  rewrite (build_outer
             (fun did =>
                for_each (sorted (fun s => s) (keys (get_default did [] d)))
                  (fun assets subj =>
                     match sorted key
                             (get_default subj [] (get_default did [] d)) with
                     | x :: _ => Ok (assets ++ [mk x])
                     | [] => Raise IndexError
                     end)
                  [])
             (fun did =>
                flat_map
                  (fun subj =>
                     pick key mk (get_default subj [] (get_default did [] d)))
                  (sorted (fun s => s) (keys (get_default did [] d))))).
  - reflexivity.
  - now apply sorted_NoDup.
  - intros did _ [].
  - intros did Hdid. apply sorted_In in Hdid.
    rewrite (build_inner
               (fun subj => get_default subj [] (get_default did [] d))).
    + reflexivity.
    + intros s Hs. apply sorted_In in Hs. now apply Hne.
Qed.

End BuildFacts.

(** ** Strictly ascending lists *)

Lemma ascending_unique (l1 l2 : list string) :
  ascending l1 -> ascending l2 -> (forall x, In x l1 <-> In x l2) -> l1 = l2.
Proof.
  unfold ascending. intros S1. revert l2.
  induction S1 as [| a l1 S1 IH F1]; intros l2 S2 Hin.
  - destruct l2 as [| b l2]; [reflexivity |].
    exfalso. apply (Hin b). now left.
  - destruct S2 as [| b l2 S2 F2].
    + exfalso. apply (Hin a). now left.
    + rewrite Forall_forall in F1, F2.
      assert (E : a = b).
      { destruct (proj1 (Hin a) (or_introl eq_refl)) as [E | Ia]; [now subst |].
        destruct (proj2 (Hin b) (or_introl eq_refl)) as [E | Ib]; [now subst |].
        pose proof (F1 b Ib) as L1. pose proof (F2 a Ia) as L2.
        pose proof (leb_ltb_trans _ _ _ (ltb_leb _ _ L1) L2) as L.
        now rewrite ltb_irrefl in L. }
      subst b. f_equal. apply IH; [exact S2 |].
      intros x. split; intros Hx.
      * destruct (proj1 (Hin x) (or_intror Hx)) as [E | I]; [| exact I].
        subst x. apply F1 in Hx. now rewrite ltb_irrefl in Hx.
      * destruct (proj2 (Hin x) (or_intror Hx)) as [E | I]; [| exact I].
        subst x. apply F2 in Hx. now rewrite ltb_irrefl in Hx.
Qed.

Lemma sorted_keys_sorted_set (l xs : list string) :
  NoDup l -> (forall x, In x l <-> In x xs) ->
  sorted (fun s => s) l = sorted_set xs.
Proof.
  intros N Hin. apply ascending_unique.
  - now apply sorted_strict.
  - apply sorted_set_strict.
  - intros x. now rewrite sorted_In, sorted_set_In.
Qed.

(** ** The index of the two scripts is [spec_index] *)

Lemma fold_left_pointwise {A B : Type} (f g : A -> B -> A) (l : list B)
  (a : A) :
  (forall a b, f a b = g a b) -> fold_left f l a = fold_left g l a.
Proof.
  intros E. revert a. induction l as [| b l IH]; intros a; simpl;
    [reflexivity |].
  now rewrite E, IH.
Qed.

Section IndexOfGrouped.
Context {T X : Type}.
Variable did_of : T -> string.
Variable entry_of : T -> Entry.
Variable val : Entry -> X.
Variable key : X -> string.
Variable mk : X -> IndexAsset.
Hypothesis key_val : forall e, key (val e) = e_path e.
Hypothesis mk_val : forall e, mk (val e) = asset_record e.

Lemma pick_val (l : list Entry) :
  pick key mk (map val l) = canonical l.
Proof.
  unfold canonical, pick. rewrite sorted_map.
  rewrite (sorted_ext (fun a => key (val a)) e_path l key_val).
  destruct (sorted e_path l) as [| e rest]; simpl; [reflexivity |].
  now rewrite mk_val.
Qed.

Lemma members_nonempty (ts : list T) (did subj : string) :
  (exists t, In t ts /\ did_of t = did /\ subject_at entry_of t = subj) ->
  members did_of (subject_at entry_of) ts did subj <> [].
Proof.
  intros (t & I & D & S) E.
  assert (M : In t (members did_of (subject_at entry_of) ts did subj)).
  { apply filter_In. split; [exact I |].
    apply andb_true_intro. split; now apply String.eqb_eq. }
  rewrite E in M. contradiction.
Qed.

Lemma build_grouped (ts : list T) :
  build key mk
    (grouped did_of (subject_at entry_of) (fun t => val (entry_of t)) ts)
  = Ok (spec_index did_of entry_of ts).
Proof.
  rewrite build_index_of.
  - f_equal. unfold index_of, spec_index, dandisets_of.
    rewrite (sorted_keys_sorted_set _ (map did_of ts)).
    + apply map_ext. intros did. f_equal. unfold subjects_of.
      rewrite (sorted_keys_sorted_set _
                 (map (subject_at entry_of)
                    (filter (fun t => String.eqb (did_of t) did) ts))).
      * apply flat_map_ext. intros subj.
        rewrite grouped_group. unfold group.
        rewrite <- pick_val, map_map. reflexivity.
      * apply grouped_subjects_NoDup.
      * intros subj. rewrite grouped_subjects, in_map_iff. split.
        -- intros (t & I & D & S). exists t. split; [exact S |].
           apply filter_In. split; [exact I | now apply String.eqb_eq].
        -- intros (t & S & I). apply filter_In in I. destruct I as [I D].
           apply String.eqb_eq in D. eauto.
    + apply grouped_NoDup.
    + intros did. rewrite grouped_dandisets, in_map_iff. split.
      * intros (t & I & D). eauto.
      * intros (t & D & I). eauto.
  - apply grouped_NoDup.
  - intros did subj _ Hs. rewrite grouped_group.
    apply grouped_subjects in Hs.
    intros E. apply map_eq_nil in E. revert E. now apply members_nonempty.
Qed.

End IndexOfGrouped.

(** *** rescan_all_subjects *)

Lemma rescan_record_eq (e : Entry) : rescan_record e = asset_record e.
Proof.
  unfold rescan_record, asset_record.
  now rewrite RegionFacts.rescan_regions_scan,
    RegionFacts.first_seen_regions_scan.
Qed.

Lemma generate_record_eq (e : Entry) : generate_record e = asset_record e.
Proof.
  unfold generate_record, asset_record.
  now rewrite RegionFacts.generate_regions_scan,
    RegionFacts.first_seen_regions_scan.
Qed.

Theorem regenerate_spec (cache : Rescan.Cache) :
  Rescan.regenerate cache = Ok (spec_index item_dandiset item_entry cache).
Proof.
  rewrite <- (build_grouped item_dandiset item_entry same_entry e_path
                rescan_record (fun e => eq_refl) rescan_record_eq).
  unfold Rescan.regenerate, build, grouped.
  rewrite (fold_left_pointwise _
             (group_step item_dandiset (subject_at item_entry)
                (fun t => same_entry (item_entry t)))).
  - reflexivity.
  - intros d item. unfold group_step, subject_at, item_dandiset, item_entry,
      same_entry.
    now rewrite SubjectFacts.extract_subject_eq.
Qed.

(** *** generate_dandiset_assets *)

Section GenerateFacts.
Variable json_loads : string -> option Entry.

Lemma generate_read (lines : list string) (es : list Entry)
  (d0 : dict string (dict string (list IndexAsset))) :
  decode_all json_loads lines = Some es ->
  for_each lines (Generate.read_line json_loads) d0 =
  Ok (fold_left
        (group_step e_dandiset_id (subject_at same_entry)
           (fun e => generate_record (same_entry e)))
        es d0).
Proof.
  revert es d0. induction lines as [| line lines IH]; intros es d0; simpl.
  - intros E. now injection E as <-.
  - unfold Generate.read_line at 1.
    destruct (json_loads line) as [e |]; [| discriminate].
    destruct (decode_all json_loads lines) as [es' |]; [| discriminate].
    intros E. injection E as <-. simpl. rewrite (IH es' _ eq_refl).
    f_equal. f_equal. unfold group_step, subject_at, same_entry.
    change (Generate.extract_subject (e_path e))
      with (Rescan.extract_subject (e_path e)).
    now rewrite SubjectFacts.extract_subject_eq.
Qed.

(** A line that does not decode ends the run. *)
Lemma generate_read_fails (lines : list string)
  (d0 : dict string (dict string (list IndexAsset))) :
  decode_all json_loads lines = None ->
  for_each lines (Generate.read_line json_loads) d0 = Raise JSONDecodeError.
Proof.
  revert d0. induction lines as [| line lines IH]; intros d0; simpl;
    [discriminate |].
  unfold Generate.read_line at 1.
  destruct (json_loads line) as [e |]; [| reflexivity].
  destruct (decode_all json_loads lines) as [es' |]; [discriminate |].
  intros _. simpl. now apply IH.
Qed.

Theorem generate_main_spec (lines : list string) (es : list Entry) :
  decode_all json_loads lines = Some es ->
  Generate.main json_loads (Some lines) =
  Ok (spec_index e_dandiset_id same_entry es).
Proof.
  intros D. unfold Generate.main. rewrite (generate_read lines es [] D).
  simpl.
  rewrite <- (build_grouped e_dandiset_id same_entry generate_record i_path
                (fun r => r) (fun e => eq_refl) generate_record_eq).
  reflexivity.
Qed.

End GenerateFacts.

(** ** What [spec_index] holds *)

Lemma flat_map_singletons {A B : Type} (f : A -> list B) (h : B -> A)
  (l : list A) :
  (forall a, In a l -> exists b, f a = [b] /\ h b = a) ->
  map h (flat_map f l) = l.
Proof.
  induction l as [| a l IH]; intros Hf; simpl; [reflexivity |].
  destruct (Hf a (or_introl eq_refl)) as (b & -> & Hb). simpl.
  rewrite Hb, IH; [reflexivity |]. intros a' Ha'. apply Hf. now right.
Qed.

Lemma flat_map_select (f : string -> list IndexAsset)
  (h : IndexAsset -> string) (l : list string) (s : string) :
  (forall a, In a l -> exists b, f a = [b] /\ h b = a) ->
  NoDup l -> In s l ->
  filter (fun r => String.eqb (h r) s) (flat_map f l) = f s.
Proof.
  induction l as [| a l IH]; intros Hf N I; [contradiction |].
  inversion_clear N as [| ? ? Ha N'].
  destruct (Hf a (or_introl eq_refl)) as (b & Eb & Hb).
  assert (Hf' : forall a', In a' l -> exists b, f a' = [b] /\ h b = a')
    by (intros a' Ha'; apply Hf; now right).
  simpl. rewrite Eb. simpl. rewrite Hb.
  destruct (String.eqb_spec a s) as [<- | Ne].
  - rewrite Eb. f_equal.
    clear IH I Hf. induction l as [| c l IHl]; [reflexivity |]. simpl.
    destruct (Hf' c (or_introl eq_refl)) as (b' & Eb' & Hb').
    rewrite Eb'. simpl. rewrite Hb'.
    destruct (String.eqb_spec c a) as [-> | _].
    + exfalso. apply Ha. now left.
    + apply IHl.
      * intros I. apply Ha. now right.
      * now inversion N'.
      * intros a' Ha'. apply Hf'. now right.
  - apply IH; [exact Hf' | exact N' |]. destruct I; congruence.
Qed.

Section SpecIndexFacts.
Context {T : Type}.
Variable did_of : T -> string.
Variable entry_of : T -> Entry.

Lemma group_In (ts : list T) (did subj : string) (e : Entry) :
  In e (group did_of entry_of ts did subj) ->
  exists t, In t ts /\ entry_of t = e /\ did_of t = did
            /\ subject_at entry_of t = subj.
Proof.
  unfold group, members. rewrite in_map_iff.
  intros (t & E & I). apply filter_In in I. destruct I as [I B].
  apply andb_prop in B. destruct B as [B1 B2].
  apply String.eqb_eq in B1, B2. eauto.
Qed.

Lemma In_group (ts : list T) (did subj : string) (t : T) :
  In t ts -> did_of t = did -> subject_at entry_of t = subj ->
  In (entry_of t) (group did_of entry_of ts did subj).
Proof.
  intros I D S. unfold group, members. apply in_map, filter_In.
  split; [exact I |]. apply andb_true_intro. split; now apply String.eqb_eq.
Qed.

Lemma subjects_of_In (ts : list T) (did subj : string) :
  In subj (subjects_of did_of entry_of ts did) <->
  exists t, In t ts /\ did_of t = did /\ subject_at entry_of t = subj.
Proof.
  unfold subjects_of. rewrite sorted_set_In, in_map_iff. split.
  - intros (t & S & I). apply filter_In in I. destruct I as [I D].
    apply String.eqb_eq in D. eauto.
  - intros (t & I & D & S). exists t. split; [exact S |].
    apply filter_In. split; [exact I | now apply String.eqb_eq].
Qed.

Lemma dandisets_of_In (ts : list T) (did : string) :
  In did (dandisets_of did_of ts) <-> exists t, In t ts /\ did_of t = did.
Proof.
  unfold dandisets_of. rewrite sorted_set_In, in_map_iff. split.
  - intros (t & D & I). eauto.
  - intros (t & I & D). eauto.
Qed.

(** The asset kept for a subject that has entries. *)
Lemma canonical_group (ts : list T) (did subj : string) :
  In subj (subjects_of did_of entry_of ts did) ->
  exists e,
    canonical (group did_of entry_of ts did subj) = [asset_record e]
    /\ first_smallest e_path e (group did_of entry_of ts did subj)
    /\ record_subject (asset_record e) = subj.
Proof.
  intros Hs. apply subjects_of_In in Hs. destruct Hs as (t & I & D & S).
  pose proof (In_group ts did subj t I D S) as G.
  unfold canonical, pick.
  destruct (sorted_cons_exists e_path (group did_of entry_of ts did subj))
    as (e & rest & Es).
  - intros E. rewrite E in G. contradiction.
  - rewrite Es. exists e. split; [reflexivity |].
    pose proof (sorted_head e_path _ e rest Es) as F. split; [exact F |].
    apply first_smallest_In, group_In in F.
    destruct F as (t' & _ & <- & _ & S'). exact S'.
Qed.

Lemma spec_index_keys (ts : list T) :
  keys (spec_index did_of entry_of ts) = dandisets_of did_of ts.
Proof.
  unfold spec_index, keys. rewrite map_map. simpl. apply map_id.
Qed.

Lemma spec_index_In (ts : list T) (did : string) (recs : list IndexAsset) :
  In (did, recs) (spec_index did_of entry_of ts) ->
  In did (dandisets_of did_of ts)
  /\ recs = flat_map
              (fun subj => canonical (group did_of entry_of ts did subj))
              (subjects_of did_of entry_of ts did).
Proof.
  unfold spec_index. rewrite in_map_iff.
  intros (d & E & I). injection E as -> <-. now split.
Qed.

Lemma spec_index_subjects (ts : list T) (did : string) :
  map record_subject
    (flat_map (fun subj => canonical (group did_of entry_of ts did subj))
       (subjects_of did_of entry_of ts did))
  = subjects_of did_of entry_of ts did.
Proof.
  apply flat_map_singletons. intros subj Hs.
  destruct (canonical_group ts did subj Hs) as (e & E & _ & S). eauto.
Qed.

Lemma spec_index_ordered (ts : list T) :
  ordered_one_per_subject did_of entry_of ts (spec_index did_of entry_of ts).
Proof.
  unfold ordered_one_per_subject. rewrite spec_index_keys.
  split; [apply sorted_set_strict |].
  split; [apply dandisets_of_In |].
  intros did recs I. apply spec_index_In in I. destruct I as [_ ->].
  rewrite spec_index_subjects.
  split; [apply sorted_set_strict | apply subjects_of_In].
Qed.

Lemma spec_index_smallest (ts : list T) :
  smallest_path_kept did_of entry_of ts (spec_index did_of entry_of ts).
Proof.
  intros did subj Hne.
  assert (Hs : In subj (subjects_of did_of entry_of ts did)).
  { destruct (group did_of entry_of ts did subj) as [| e g] eqn:E;
      [contradiction |].
    assert (Ie : In e (group did_of entry_of ts did subj))
      by (rewrite E; now left).
    apply group_In in Ie. destruct Ie as (t & I & _ & D & S).
    apply subjects_of_In. eauto. }
  destruct (canonical_group ts did subj Hs) as (e & Ec & F & S).
  exists e.
  exists (flat_map (fun subj => canonical (group did_of entry_of ts did subj))
            (subjects_of did_of entry_of ts did)).
  split; [exact F |]. split.
  - unfold spec_index. apply in_map_iff. exists did. split; [reflexivity |].
    apply subjects_of_In in Hs. destruct Hs as (t & I & D & _).
    apply dandisets_of_In. eauto.
  - rewrite <- Ec. apply flat_map_select; [| apply sorted_set_NoDup | exact Hs].
    intros a Ha. destruct (canonical_group ts did a Ha) as (e' & E' & _ & S').
    eauto.
Qed.

End SpecIndexFacts.

End IndexFacts.

(* ================================================================== *)
(** * Loading the cache *)
(* ================================================================== *)

Module LoadFacts.
Import Spec PyFacts.

Section Load.
Variable json_loads : string -> option Entry.

Lemma load_line_blank (cache : Rescan.Cache) (line : string) :
  strip line = EmptyString ->
  Rescan.load_line json_loads cache line = Ok cache.
Proof. intros E. unfold Rescan.load_line. now rewrite E. Qed.

Lemma load_lines (lines : list string) (cache : Rescan.Cache) :
  for_each lines (Rescan.load_line json_loads) cache =
  match decode_all json_loads (stripped_lines lines) with
  | Some es => Ok (fold_left (fun c e => set (entry_key e) e c) es cache)
  | None => Raise JSONDecodeError
  end.
Proof.
  revert cache. induction lines as [| line lines IH]; intros cache;
    [reflexivity |].
  cbn [for_each]. unfold Rescan.load_line at 1.
  unfold stripped_lines in *. cbn [map filter].
  destruct (is_empty (strip line)); cbn [negb bind].
  - apply IH.
  - cbn [decode_all]. destruct (json_loads (strip line)) as [e |];
      [| reflexivity].
    cbn [bind]. rewrite IH.
    now destruct (decode_all json_loads
                    (filter (fun l => negb (is_empty l)) (map strip lines))).
Qed.

Lemma load_label_cache_spec (lines : list string) :
  Rescan.load_label_cache json_loads (Some lines) =
  match decode_all json_loads (stripped_lines lines) with
  | Some es => Ok (table_of es)
  | None => Raise JSONDecodeError
  end.
Proof. unfold Rescan.load_label_cache, table_of. apply load_lines. Qed.

End Load.

(** ** The table of a sequence of entries *)

Lemma table_fold_NoDup (es : list Entry) (cache : Rescan.Cache) :
  NoDup (keys cache) ->
  NoDup (keys (fold_left (fun c e => set (entry_key e) e c) es cache)).
Proof.
  revert cache. induction es as [| e es IH]; intros cache N; simpl;
    [exact N |].
  apply IH. now apply NoDup_keys_set.
Qed.

Lemma table_of_NoDup (es : list Entry) : NoDup (keys (table_of es)).
Proof. apply table_fold_NoDup. constructor. Qed.

Lemma table_fold_last (post : list Entry) (e : Entry) (cache : Rescan.Cache) :
  get (entry_key e) cache = Some e ->
  (forall e', In e' post -> entry_key e' = entry_key e -> e' = e) ->
  get (entry_key e)
    (fold_left (fun c e => set (entry_key e) e c) post cache) = Some e.
Proof.
  revert cache. induction post as [| x post IH]; intros cache G Hpost; simpl;
    [exact G |].
  apply IH.
  - destruct (eq_dec (entry_key x) (entry_key e)) as [E | N].
    + rewrite (Hpost x (or_introl eq_refl) E). apply get_set_same.
    + now rewrite get_set_other.
  - intros e' I. apply Hpost. now right.
Qed.

(** The last entry of a key is the entry of the table. *)
Lemma table_of_last (pre post : list Entry) (e : Entry) :
  (forall e', In e' post -> entry_key e' = entry_key e -> e' = e) ->
  get (entry_key e) (table_of (pre ++ e :: post)) = Some e.
Proof.
  intros Hpost. unfold table_of. rewrite fold_left_app. simpl.
  apply table_fold_last; [apply get_set_same | exact Hpost].
Qed.

Lemma table_fold_fresh (es : list Entry) (cache : Rescan.Cache) :
  NoDup (map entry_key es) ->
  (forall e, In e es -> ~ In (entry_key e) (keys cache)) ->
  fold_left (fun c e => set (entry_key e) e c) es cache =
  cache ++ map keyed es.
Proof.
  revert cache. induction es as [| e es IH]; intros cache N F; simpl.
  - now rewrite app_nil_r.
  - inversion_clear N as [| ? ? He N'].
    rewrite set_fresh by (apply F; now left).
    rewrite IH; [now rewrite <- app_assoc | exact N' |].
    intros e' I. unfold keys. rewrite map_app, in_app_iff. simpl.
    intros [K | [K | []]].
    + apply (F e'); [now right | exact K].
    + apply He. rewrite K. now apply in_map.
Qed.

(** Without a repeated key the table is the entries in their order. *)
Lemma table_of_distinct (es : list Entry) :
  NoDup (map entry_key es) -> table_of es = map keyed es.
Proof.
  intros N. unfold table_of. now rewrite table_fold_fresh.
Qed.

End LoadFacts.

(* ================================================================== *)
(** * The synchronizer *)
(* ================================================================== *)

Module SyncFacts.
Import Spec PyFacts IndexFacts.

(** ** The listing grouped by subject *)

Lemma group_by_subject_get (all_assets : list Asset) (subj : string) :
  get_default subj [] (Rescan.group_by_subject all_assets) =
  listed all_assets subj.
Proof.
  unfold Rescan.group_by_subject, listed.
  rewrite (group1_get (fun a => Rescan.extract_subject (a_path a))
             (fun a => a)).
  simpl. rewrite map_id. apply filter_ext. intros a.
  now rewrite SubjectFacts.extract_subject_eq.
Qed.

Lemma group_by_subject_keys (all_assets : list Asset) (subj : string) :
  In subj (keys (Rescan.group_by_subject all_assets)) <->
  exists a, In a all_assets /\ subject_of (a_path a) = subj.
Proof.
  unfold Rescan.group_by_subject.
  rewrite (group1_keys (fun a => Rescan.extract_subject (a_path a))
             (fun a => a)).
  simpl. split.
  - intros [[] | (a & I & E)]. rewrite SubjectFacts.extract_subject_eq in E.
    eauto.
  - intros (a & I & E). right. exists a.
    now rewrite SubjectFacts.extract_subject_eq.
Qed.

Lemma group_by_subject_NoDup (all_assets : list Asset) :
  NoDup (keys (Rescan.group_by_subject all_assets)).
Proof.
  unfold Rescan.group_by_subject. apply group1_NoDup. constructor.
Qed.

Lemma listed_In (all_assets : list Asset) (subj : string) (a : Asset) :
  In a (listed all_assets subj) <->
  In a all_assets /\ subject_of (a_path a) = subj.
Proof.
  unfold listed. rewrite filter_In. now rewrite String.eqb_eq.
Qed.

Lemma existsb_sorted {A : Type} (key : A -> string) (f : A -> bool)
  (l : list A) :
  existsb f (sorted key l) = existsb f l.
Proof.
  apply eq_true_iff_eq. rewrite !existsb_exists.
  split; intros (x & I & E); exists x; (split; [| exact E]);
    now apply (sorted_In key l).
Qed.

Lemma has_cached_false (cache : Rescan.Cache) (ds_id : string)
  (assets : list Asset) :
  has_cached cache ds_id assets = false <->
  forall a, In a assets -> contains (ds_id, a_asset_id a) cache = false.
Proof.
  unfold has_cached. split.
  - intros E a I. destruct (contains (ds_id, a_asset_id a) cache) eqn:C;
      [| reflexivity].
    rewrite <- E. symmetry. apply existsb_exists. eauto.
  - intros F. destruct (existsb _ assets) eqn:E; [| reflexivity].
    apply existsb_exists in E. destruct E as (a & I & C).
    now rewrite (F a I) in C.
Qed.

Section Sync.
Variable json_dumps : Entry -> string.
Variable get_nwb_assets_paged : string -> result (list Asset).
Variable process_asset : string -> Asset -> option Entry.

(** ** One subject *)

Lemma sync_subject_eq (ds_id : string) (all_assets : list Asset)
  (st : Rescan.state) (subj : string) :
  Rescan.sync_subject json_dumps process_asset ds_id
    (Rescan.group_by_subject all_assets) st subj =
  if has_cached (Rescan.label_cache st) ds_id (listed all_assets subj)
  then Ok st
  else match sorted a_path (listed all_assets subj) with
       | [] => Raise IndexError
       | a :: _ => Ok (after_call json_dumps process_asset st (ds_id, a))
       end.
Proof.
  unfold Rescan.sync_subject. rewrite group_by_subject_get, existsb_sorted.
  fold (has_cached (Rescan.label_cache st) ds_id (listed all_assets subj)).
  destruct (has_cached _ _ _); [reflexivity |].
  destruct (sorted a_path (listed all_assets subj)) as [| a rest];
    [reflexivity |].
  unfold after_call, cache_step, log_of, Rescan.append_label_cache. simpl.
  destruct (process_asset ds_id a); simpl.
  - reflexivity.
  - now rewrite app_nil_r, Nat.add_0_r.
Qed.

(** ** The table and the file are the loaded ones and the results *)

Lemma cache_after_app (calls : list (string * Asset)) (c : string * Asset)
  (cache : Rescan.Cache) :
  cache_after process_asset (calls ++ [c]) cache =
  cache_step process_asset (cache_after process_asset calls cache) c.
Proof. unfold cache_after. now rewrite fold_left_app. Qed.

Lemma log_after_app (calls : list (string * Asset)) (c : string * Asset) :
  log_after json_dumps process_asset (calls ++ [c]) =
  log_after json_dumps process_asset calls ++ log_of json_dumps process_asset c.
Proof.
  unfold log_after. rewrite flat_map_app. simpl. now rewrite app_nil_r.
Qed.

Lemma contains_get {V : Type} (k : string * string)
  (d : dict (string * string) V) :
  contains k d = false -> get k d = None.
Proof. unfold contains. now destruct (get k d). Qed.

Lemma after_call_invariant (loaded : Rescan.Cache) (st : Rescan.state)
  (ds_id subj : string) (all_assets : list Asset) (a : Asset)
  (rest : list Asset) :
  run_invariant json_dumps process_asset get_nwb_assets_paged loaded st ->
  get_nwb_assets_paged ds_id = Ok all_assets ->
  has_cached (Rescan.label_cache st) ds_id (listed all_assets subj) = false ->
  sorted a_path (listed all_assets subj) = a :: rest ->
  run_invariant json_dumps process_asset get_nwb_assets_paged loaded
    (after_call json_dumps process_asset st (ds_id, a)).
Proof.
  intros (Hkeep & Hcache & Hlog & Hnew & Hcalls) HL Hnc Hs.
  pose proof (sorted_head a_path _ a rest Hs) as Hfirst.
  pose proof (first_smallest_In a_path _ _ Hfirst) as Ha.
  pose proof (proj1 (has_cached_false _ _ _) Hnc) as Hfresh.
  pose proof (proj1 (listed_In _ _ _) Ha) as [HaL Hsubj].
  unfold run_invariant, after_call. simpl.
  split; [| split; [| split; [| split]]].
  - intros k e G. unfold cache_step. simpl.
    destruct (process_asset ds_id a) as [r |]; [| now apply Hkeep].
    rewrite get_set_other; [now apply Hkeep |].
    intros <-. apply Hkeep in G.
    apply Hfresh, contains_get in Ha. congruence.
  - rewrite cache_after_app. now rewrite <- Hcache.
  - rewrite log_after_app. now rewrite <- Hlog.
  - rewrite log_after_app, length_app. now rewrite <- Hnew.
  - apply Forall_app. split; [exact Hcalls |]. constructor; [| constructor].
    exists all_assets. simpl. rewrite Hsubj.
    split; [exact HL |]. split; [exact Hfirst |].
    apply has_cached_false. intros a' Ia'.
    destruct (contains (ds_id, a_asset_id a') loaded) eqn:C; [| reflexivity].
    unfold contains in C.
    destruct (get (ds_id, a_asset_id a') loaded) as [e |] eqn:G;
      [| discriminate].
    apply Hkeep in G. apply Hfresh in Ia'. unfold contains in Ia'.
    now rewrite G in Ia'.
Qed.

Lemma sync_subject_invariant (loaded : Rescan.Cache) (st st' : Rescan.state)
  (ds_id subj : string) (all_assets : list Asset) :
  run_invariant json_dumps process_asset get_nwb_assets_paged loaded st ->
  get_nwb_assets_paged ds_id = Ok all_assets ->
  Rescan.sync_subject json_dumps process_asset ds_id
    (Rescan.group_by_subject all_assets) st subj = Ok st' ->
  run_invariant json_dumps process_asset get_nwb_assets_paged loaded st'.
Proof.
  intros Inv HL. rewrite sync_subject_eq.
  destruct (has_cached _ _ _) eqn:Hc.
  - intros E. now injection E as <-.
  - destruct (sorted a_path (listed all_assets subj)) as [| a rest] eqn:Hs;
      [discriminate |].
    intros E. injection E as <-.
    now apply (after_call_invariant loaded st ds_id subj all_assets a rest).
Qed.

Lemma sync_dandiset_invariant (loaded : Rescan.Cache)
  (st st' : Rescan.state) (ds_id : string) :
  run_invariant json_dumps process_asset get_nwb_assets_paged loaded st ->
  Rescan.sync_dandiset json_dumps get_nwb_assets_paged process_asset st ds_id
  = Ok st' ->
  run_invariant json_dumps process_asset get_nwb_assets_paged loaded st'.
Proof.
  intros Inv E. unfold Rescan.sync_dandiset in E.
  apply bind_Ok in E. destruct E as (all_assets & HL & E).
  revert Inv E. apply for_each_invariant.
  intros s subj s' _ Inv E.
  now apply (sync_subject_invariant loaded s s' ds_id subj all_assets).
Qed.

Lemma initial_invariant (loaded : Rescan.Cache) :
  run_invariant json_dumps process_asset get_nwb_assets_paged loaded
    (Rescan.mkState loaded [] [] 0).
Proof.
  unfold run_invariant. simpl. repeat split; auto.
Qed.

Lemma dandisets_loop_invariant (loaded : Rescan.Cache)
  (dids : list string) (st st' : Rescan.state) :
  run_invariant json_dumps process_asset get_nwb_assets_paged loaded st ->
  for_each dids
    (Rescan.sync_dandiset json_dumps get_nwb_assets_paged process_asset) st
  = Ok st' ->
  run_invariant json_dumps process_asset get_nwb_assets_paged loaded st'.
Proof.
  apply for_each_invariant. intros s d s' _ Inv E.
  now apply (sync_dandiset_invariant loaded s s' d).
Qed.

Lemma synchronize_invariant (loaded : Rescan.Cache) (st : Rescan.state) :
  Rescan.synchronize json_dumps get_nwb_assets_paged process_asset loaded
  = Ok st ->
  run_invariant json_dumps process_asset get_nwb_assets_paged loaded st.
Proof.
  unfold Rescan.synchronize. apply dandisets_loop_invariant.
  apply initial_invariant.
Qed.

(** ** A run whose listings succeed does not raise *)




(** ** Where the entries of the final table come from *)

Lemma cache_after_items (calls : list (string * Asset))
  (cache : Rescan.Cache) (item : (string * string) * Entry) :
  In item (cache_after process_asset calls cache) ->
  In item cache
  \/ exists c, In c calls
               /\ fst item = (fst c, a_asset_id (snd c))
               /\ process_asset (fst c) (snd c) = Some (snd item).
Proof.
  revert cache. induction calls as [| c calls IH]; intros cache; simpl;
    [now left |].
  intros I. apply IH in I. destruct I as [I | (c' & Ic & K & P)].
  - unfold cache_step in I.
    destruct (process_asset (fst c) (snd c)) as [r |] eqn:P; [| now left].
    apply In_set in I. destruct I as [-> | I]; [| now left].
    right. exists c. simpl. auto.
  - right. exists c'. auto.
Qed.

Lemma cache_after_keys (calls : list (string * Asset))
  (cache : Rescan.Cache) (k : string * string) :
  contains k (cache_after process_asset calls cache) = true ->
  contains k cache = true
  \/ exists c, In c calls /\ k = (fst c, a_asset_id (snd c)).
Proof.
  intros C. unfold contains in C.
  destruct (get k (cache_after process_asset calls cache)) as [e |] eqn:G;
    [| discriminate].
  apply get_In, cache_after_items in G. destruct G as [I | (c & I & K & _)].
  - left. apply contains_keys. now apply (in_map fst) in I.
  - right. eauto.
Qed.

(** ** The calls made for a dandiset and subject *)

Lemma calls_for_app (ds_id subj : string) (l1 l2 : list (string * Asset)) :
  calls_for ds_id subj (l1 ++ l2) =
  calls_for ds_id subj l1 ++ calls_for ds_id subj l2.
Proof. apply filter_app. Qed.

Lemma calls_for_In (ds_id subj : string) (calls : list (string * Asset))
  (c : string * Asset) :
  In c (calls_for ds_id subj calls) <->
  In c calls /\ fst c = ds_id /\ subject_of (a_path (snd c)) = subj.
Proof.
  unfold calls_for. rewrite filter_In, andb_true_iff, !String.eqb_eq.
  tauto.
Qed.

Lemma calls_for_one (ds_id subj d : string) (a : Asset) :
  calls_for ds_id subj [(d, a)] =
  if String.eqb d ds_id && String.eqb (subject_of (a_path a)) subj
  then [(d, a)] else [].
Proof. reflexivity. Qed.

(** A subject other than [subj], or of another dandiset, adds no call for
    [subj]. *)
Lemma sync_subject_frame (ds_id subj d s : string) (all_assets : list Asset)
  (st st' : Rescan.state) :
  d <> ds_id \/ s <> subj ->
  Rescan.sync_subject json_dumps process_asset d
    (Rescan.group_by_subject all_assets) st s = Ok st' ->
  calls_for ds_id subj (Rescan.calls st') =
  calls_for ds_id subj (Rescan.calls st).
Proof.
  intros Hne. rewrite sync_subject_eq.
  destruct (has_cached _ _ _); [intros E; now injection E as <- |].
  destruct (sorted a_path (listed all_assets s)) as [| a rest] eqn:Hs;
    [discriminate |].
  intros E. injection E as <-. unfold after_call. simpl.
  rewrite calls_for_app, calls_for_one.
  apply sorted_head, first_smallest_In, listed_In in Hs.
  destruct Hs as [_ Hs]. rewrite Hs.
  destruct (String.eqb_spec d ds_id) as [-> | _];
    destruct (String.eqb_spec s subj) as [-> | _]; simpl;
    try apply app_nil_r.
  destruct Hne; congruence.
Qed.

Lemma subjects_loop_frame (ds_id subj d : string) (all_assets : list Asset)
  (subjs : list string) (st st' : Rescan.state) :
  d <> ds_id \/ ~ In subj subjs ->
  for_each subjs
    (Rescan.sync_subject json_dumps process_asset d
       (Rescan.group_by_subject all_assets)) st = Ok st' ->
  calls_for ds_id subj (Rescan.calls st') =
  calls_for ds_id subj (Rescan.calls st).
Proof.
  intros Hne E.
  apply (for_each_invariant
           (fun s => calls_for ds_id subj (Rescan.calls s) =
                     calls_for ds_id subj (Rescan.calls st))
           subjs
           (Rescan.sync_subject json_dumps process_asset d
              (Rescan.group_by_subject all_assets))) with (s := st);
    [| reflexivity | exact E].
  intros s x s' Ix Hs Ex. rewrite <- Hs.
  apply (sync_subject_frame ds_id subj d x all_assets s s'); [| exact Ex].
  destruct Hne as [Hd | Hn]; [now left | right].
  intros ->. contradiction.
Qed.

Lemma sync_dandiset_frame (ds_id subj d : string) (st st' : Rescan.state) :
  d <> ds_id ->
  Rescan.sync_dandiset json_dumps get_nwb_assets_paged process_asset st d
  = Ok st' ->
  calls_for ds_id subj (Rescan.calls st') =
  calls_for ds_id subj (Rescan.calls st).
Proof.
  intros Hd E. unfold Rescan.sync_dandiset in E.
  apply bind_Ok in E. destruct E as (all_assets & _ & E).
  revert E. apply subjects_loop_frame. now left.
Qed.

Lemma dandisets_loop_frame (ds_id subj : string) (dids : list string)
  (st st' : Rescan.state) :
  ~ In ds_id dids ->
  for_each dids
    (Rescan.sync_dandiset json_dumps get_nwb_assets_paged process_asset) st
  = Ok st' ->
  calls_for ds_id subj (Rescan.calls st') =
  calls_for ds_id subj (Rescan.calls st).
Proof.
  intros Hn E.
  apply (for_each_invariant
           (fun s => calls_for ds_id subj (Rescan.calls s) =
                     calls_for ds_id subj (Rescan.calls st))
           dids
           (Rescan.sync_dandiset json_dumps get_nwb_assets_paged
              process_asset)) with (s := st);
    [| reflexivity | exact E].
  intros s d s' Id Hs Ed. rewrite <- Hs.
  apply (sync_dandiset_frame ds_id subj d s s'); [| exact Ed].
  intros ->. contradiction.
Qed.

(** ** A subject with a cached asset is skipped *)

Lemma no_call_when_cached (loaded : Rescan.Cache) (st : Rescan.state)
  (ds_id : string) (all_assets : list Asset) (a : Asset) :
  run_invariant json_dumps process_asset get_nwb_assets_paged loaded st ->
  get_nwb_assets_paged ds_id = Ok all_assets ->
  In a all_assets ->
  contains (ds_id, a_asset_id a) loaded = true ->
  calls_for ds_id (subject_of (a_path a)) (Rescan.calls st) = [].
Proof.
  intros (_ & _ & _ & _ & Hcalls) HL Ia Hc.
  destruct (calls_for ds_id (subject_of (a_path a)) (Rescan.calls st))
    as [| c l] eqn:E; [reflexivity |].
  exfalso.
  assert (Ic : In c (calls_for ds_id (subject_of (a_path a))
                       (Rescan.calls st)))
    by (rewrite E; now left).
  apply calls_for_In in Ic. destruct Ic as (Ic & Hd & Hs).
  rewrite Forall_forall in Hcalls.
  destruct (Hcalls c Ic) as (L & HL' & _ & Hnc).
  rewrite Hd, HL in HL'. injection HL' as <-. rewrite Hd, Hs in Hnc.
  rewrite has_cached_false in Hnc.
  rewrite (Hnc a) in Hc; [discriminate |].
  now apply listed_In.
Qed.

(** ** A subject without a cached asset is labelled once *)

Lemma NoDup_map_In_eq {A B : Type} (f : A -> B) (l : list A) (x y : A) :
  NoDup (map f l) -> In x l -> In y l -> f x = f y -> x = y.
Proof.
  induction l as [| a l IH]; simpl; [contradiction |].
  intros N Ix Iy E. inversion_clear N as [| ? ? Ha N'].
  destruct Ix as [-> | Ix], Iy as [-> | Iy]; auto.
  - exfalso. apply Ha. rewrite E. now apply in_map.
  - exfalso. apply Ha. rewrite <- E. now apply in_map.
Qed.

Lemma still_missing (loaded : Rescan.Cache) (st : Rescan.state)
  (ds_id subj : string) (all_assets : list Asset) :
  run_invariant json_dumps process_asset get_nwb_assets_paged loaded st ->
  get_nwb_assets_paged ds_id = Ok all_assets ->
  NoDup (map a_asset_id all_assets) ->
  has_cached loaded ds_id (listed all_assets subj) = false ->
  calls_for ds_id subj (Rescan.calls st) = [] ->
  has_cached (Rescan.label_cache st) ds_id (listed all_assets subj) = false.
Proof.
  intros (_ & Hcache & _ & _ & Hcalls) HL Hids Hnc Hnone.
  apply has_cached_false. intros a Ia.
  destruct (contains (ds_id, a_asset_id a) (Rescan.label_cache st)) eqn:C;
    [| reflexivity].
  exfalso. rewrite Hcache in C. apply cache_after_keys in C.
  destruct C as [C | (c & Ic & K)].
  - rewrite (proj1 (has_cached_false _ _ _) Hnc a Ia) in C. discriminate.
  - injection K as Kd Ka.
    rewrite Forall_forall in Hcalls.
    destruct (Hcalls c Ic) as (L & HL' & Hfirst & _).
    rewrite <- Kd, HL in HL'. injection HL' as <-.
    apply first_smallest_In, listed_In in Hfirst. destruct Hfirst as [IcL _].
    apply listed_In in Ia. destruct Ia as [IaL Hs].
    assert (Ea : a = snd c)
      by now apply (NoDup_map_In_eq a_asset_id all_assets).
    assert (Icf : In c (calls_for ds_id subj (Rescan.calls st))).
    { apply calls_for_In. repeat split; auto. now rewrite <- Ea. }
    now rewrite Hnone in Icf.
Qed.

Lemma subjects_loop_visit (loaded : Rescan.Cache) (ds_id subj : string)
  (all_assets : list Asset) (subjs : list string) (st st' : Rescan.state) :
  run_invariant json_dumps process_asset get_nwb_assets_paged loaded st ->
  get_nwb_assets_paged ds_id = Ok all_assets ->
  NoDup (map a_asset_id all_assets) ->
  NoDup subjs -> In subj subjs ->
  has_cached loaded ds_id (listed all_assets subj) = false ->
  calls_for ds_id subj (Rescan.calls st) = [] ->
  for_each subjs
    (Rescan.sync_subject json_dumps process_asset ds_id
       (Rescan.group_by_subject all_assets)) st = Ok st' ->
  exists a,
    sorted a_path (listed all_assets subj) = a :: tl (sorted a_path (listed all_assets subj))
    /\ calls_for ds_id subj (Rescan.calls st') = [(ds_id, a)].
Proof.
  intros Inv HL Hids Hnd Hin Hnc Hnone E.
  apply in_split in Hin. destruct Hin as (p & q & ->).
  apply NoDup_remove_2 in Hnd.
  assert (Hp : ~ In subj p) by (intros I; apply Hnd, in_or_app; now left).
  assert (Hq : ~ In subj q) by (intros I; apply Hnd, in_or_app; now right).
  rewrite for_each_app in E. apply bind_Ok in E.
  destruct E as (s1 & E1 & E). simpl in E. apply bind_Ok in E.
  destruct E as (s2 & E2 & E3).
  assert (Inv1 : run_invariant json_dumps process_asset get_nwb_assets_paged
                   loaded s1).
  { revert Inv E1. apply for_each_invariant. intros s x s' _ I Ex.
    now apply (sync_subject_invariant loaded s s' ds_id x all_assets). }
  assert (F1 : calls_for ds_id subj (Rescan.calls s1) = []).
  { rewrite <- Hnone. revert E1. apply subjects_loop_frame. now right. }
  pose proof (still_missing loaded s1 ds_id subj all_assets Inv1 HL Hids Hnc F1)
    as Hmiss.
  rewrite sync_subject_eq, Hmiss in E2.
  destruct (sorted a_path (listed all_assets subj)) as [| a rest] eqn:Hs;
    [discriminate |].
  injection E2 as <-. exists a. split; [reflexivity |].
  rewrite (subjects_loop_frame ds_id subj ds_id all_assets q _ st'
             (or_intror Hq) E3).
  unfold after_call. simpl. rewrite calls_for_app, F1, calls_for_one.
  apply sorted_head, first_smallest_In, listed_In in Hs.
  destruct Hs as [_ Hs]. now rewrite Hs, !String.eqb_refl.
Qed.

Lemma one_call_when_missing (loaded : Rescan.Cache) (final : Rescan.state)
  (ds_id : string) (all_assets : list Asset) (a0 : Asset) :
  Rescan.synchronize json_dumps get_nwb_assets_paged process_asset loaded
  = Ok final ->
  In ds_id (Rescan.dandiset_ids_of loaded) ->
  get_nwb_assets_paged ds_id = Ok all_assets ->
  NoDup (map a_asset_id all_assets) ->
  In a0 all_assets ->
  has_cached loaded ds_id (listed all_assets (subject_of (a_path a0))) = false ->
  exists a,
    first_smallest a_path a (listed all_assets (subject_of (a_path a0)))
    /\ calls_for ds_id (subject_of (a_path a0)) (Rescan.calls final)
       = [(ds_id, a)].
Proof.
  intros E Hds HL Hids Ia0 Hnc. unfold Rescan.synchronize in E.
  pose proof (sorted_set_NoDup (map fst (keys loaded))) as Hnd.
  fold (Rescan.dandiset_ids_of loaded) in Hnd.
  apply in_split in Hds. destruct Hds as (p & q & Eds). rewrite Eds in *.
  apply NoDup_remove_2 in Hnd.
  assert (Hp : ~ In ds_id p) by (intros I; apply Hnd, in_or_app; now left).
  assert (Hq : ~ In ds_id q) by (intros I; apply Hnd, in_or_app; now right).
  rewrite for_each_app in E. apply bind_Ok in E.
  destruct E as (s1 & E1 & E). simpl in E. apply bind_Ok in E.
  destruct E as (s2 & E2 & E3).
  pose proof (dandisets_loop_invariant loaded p _ s1
                (initial_invariant loaded) E1) as Inv1.
  pose proof (dandisets_loop_frame ds_id (subject_of (a_path a0)) p _ s1
                Hp E1) as F1.
  simpl in F1.
  unfold Rescan.sync_dandiset in E2. rewrite HL in E2. simpl in E2.
  destruct (subjects_loop_visit loaded ds_id (subject_of (a_path a0))
              all_assets
              (sorted (fun s => s) (keys (Rescan.group_by_subject all_assets)))
              s1 s2 Inv1 HL Hids) as (a & Hs & Hc);
    [| | exact Hnc | exact F1 | exact E2 |].
  - apply sorted_NoDup, group_by_subject_NoDup.
  - apply sorted_In, group_by_subject_keys. eauto.
  - exists a. split; [now apply (sorted_head a_path _ a _ Hs) |].
    now rewrite (dandisets_loop_frame ds_id (subject_of (a_path a0)) q s2
                   final Hq E3).
Qed.

(** ** The index after a failed labeling *)

Lemma filter_none {A : Type} (f : A -> bool) (l : list A) :
  (forall x, In x l -> f x = false) -> filter f l = [].
Proof.
  induction l as [| x l IH]; intros F; simpl; [reflexivity |].
  rewrite (F x (or_introl eq_refl)). apply IH. intros y I. apply F. now right.
Qed.

Lemma cached_subject_false (cache : Rescan.Cache) (ds_id subj : string) :
  cached_subject cache ds_id subj = false <->
  forall item, In item cache ->
               ~ (item_dandiset item = ds_id
                  /\ subject_at item_entry item = subj).
Proof.
  unfold cached_subject. split.
  - intros E item I [D S].
    assert (T : existsb
                  (fun item =>
                     String.eqb (item_dandiset item) ds_id
                     && String.eqb (subject_at item_entry item) subj)
                  cache = true).
    { apply existsb_exists. exists item. split; [exact I |].
      apply andb_true_intro. split; now apply String.eqb_eq. }
    congruence.
  - intros F. destruct (existsb _ cache) eqn:E; [| reflexivity].
    apply existsb_exists in E. destruct E as (item & I & B).
    apply andb_prop in B. destruct B as [B1 B2].
    apply String.eqb_eq in B1, B2. exfalso. apply (F item I). now split.
Qed.

Lemma failed_subject_not_indexed (loaded : Rescan.Cache) (st : Rescan.state)
  (ds_id : string) (a : Asset) (idx : Index) :
  (forall d x r, process_asset d x = Some r -> e_path r = a_path x) ->
  run_invariant json_dumps process_asset get_nwb_assets_paged loaded st ->
  In (ds_id, a) (Rescan.calls st) ->
  process_asset ds_id a = None ->
  cached_subject loaded ds_id (subject_of (a_path a)) = false ->
  Rescan.regenerate (Rescan.label_cache st) = Ok idx ->
  index_records idx ds_id (subject_of (a_path a)) = [].
Proof.
  intros Hpath (_ & Hcache & _ & _ & Hcalls) Hcall Hfail Hnone E.
  rewrite regenerate_spec in E. injection E as <-.
  unfold index_records, get_default.
  destruct (get ds_id (spec_index item_dandiset item_entry
                         (Rescan.label_cache st))) as [recs |] eqn:G;
    [| reflexivity].
  apply get_In in G.
  destruct (spec_index_ordered item_dandiset item_entry
              (Rescan.label_cache st)) as (_ & _ & Hrecs).
  destruct (Hrecs ds_id recs G) as [_ Hsub].
  apply filter_none. intros r Ir.
  destruct (String.eqb_spec (record_subject r) (subject_of (a_path a)))
    as [Er | _]; [| reflexivity].
  exfalso.
  assert (Is : In (subject_of (a_path a)) (map record_subject recs))
    by (rewrite <- Er; now apply in_map).
  apply Hsub in Is. destruct Is as (item & Ii & Hd & Hs).
  rewrite Hcache in Ii. apply cache_after_items in Ii.
  destruct Ii as [Ii | (c & Ic & K & P)].
  - rewrite cached_subject_false in Hnone. apply (Hnone item Ii). now split.
  - destruct item as [[d k] r']. simpl in *. injection K as Kd Kk.
    unfold item_dandiset in Hd. simpl in Hd.
    unfold subject_at, item_entry in Hs. simpl in Hs.
    rewrite (Hpath _ _ _ P) in Hs.
    rewrite Forall_forall in Hcalls.
    destruct (Hcalls c Ic) as (L & HL & Hfirst & _).
    destruct (Hcalls (ds_id, a) Hcall) as (L' & HL' & Hfirst' & _).
    simpl in HL', Hfirst'.
    assert (Ed : fst c = ds_id) by congruence.
    rewrite Ed, HL' in HL. injection HL as <-. rewrite Hs in Hfirst.
    pose proof (first_smallest_unique a_path _ _ _ Hfirst Hfirst') as Ea.
    rewrite Ed, Ea in P. congruence.
Qed.

End Sync.

End SyncFacts.

(* ================================================================== *)
(** * The two ways to the index *)
(* ================================================================== *)

Module AgreeFacts.
Import Spec PyFacts IndexFacts LoadFacts.

Lemma filter_map_comm {A B : Type} (f : A -> B) (p : B -> bool) (l : list A) :
  filter p (map f l) = map f (filter (fun a => p (f a)) l).
Proof.
  induction l as [| a l IH]; simpl; [reflexivity |].
  destruct (p (f a)); simpl; now rewrite IH.
Qed.

Lemma spec_index_map {S T : Type} (f : S -> T) (did_of : T -> string)
  (entry_of : T -> Entry) (ss : list S) :
  spec_index did_of entry_of (map f ss) =
  spec_index (fun s => did_of (f s)) (fun s => entry_of (f s)) ss.
Proof.
  unfold spec_index, dandisets_of. rewrite map_map.
  apply map_ext. intros did. f_equal.
  unfold subjects_of. rewrite filter_map_comm, map_map.
  apply flat_map_ext. intros subj. f_equal.
  unfold group, members. now rewrite filter_map_comm, map_map.
Qed.

(** Over a file without blank lines and without a repeated key, whose lines
    decode alike with and without the white space around them, the index
    [generate_dandiset_assets] writes is the index of the loaded table. *)
Theorem generate_agrees_without_duplicates
  (json_loads : string -> option Entry) (lines : list string)
  (es : list Entry) :
  decode_all json_loads lines = Some es ->
  decode_all json_loads (stripped_lines lines) = Some es ->
  NoDup (map entry_key es) ->
  bind (Rescan.load_label_cache json_loads (Some lines)) Rescan.regenerate
  = Generate.main json_loads (Some lines).
Proof.
  intros D Ds N.
  rewrite (load_label_cache_spec json_loads lines), Ds. cbn [bind].
  rewrite (generate_main_spec json_loads lines es D), regenerate_spec.
  rewrite (table_of_distinct es N), spec_index_map. reflexivity.
Qed.

End AgreeFacts.

(* ================================================================== *)
(** * The run of [rescan_all_subjects] *)
(* ================================================================== *)

Module MainFacts.
Import Spec PyFacts IndexFacts SyncFacts.

Section Main.
Variable json_loads : string -> option Entry.
Variable json_dumps : Entry -> string.
Variable get_nwb_assets_paged : string -> result (list Asset).
Variable process_asset : string -> Asset -> option Entry.

Lemma main_Ok (file : option (list string)) (st : Rescan.state)
  (idx : Index) :
  Rescan.main json_loads json_dumps get_nwb_assets_paged process_asset file
  = Ok (st, idx) ->
  exists cache,
    Rescan.load_label_cache json_loads file = Ok cache
    /\ Rescan.synchronize json_dumps get_nwb_assets_paged process_asset cache
       = Ok st
    /\ Rescan.regenerate (Rescan.label_cache st) = Ok idx.
Proof.
  unfold Rescan.main. intros E.
  apply bind_Ok in E. destruct E as (cache & Hload & E).
  apply bind_Ok in E. destruct E as (st' & Hsync & E).
  apply bind_Ok in E. destruct E as (idx' & Hidx & E).
  injection E as <- <-. eauto.
Qed.



End Main.

End MainFacts.

(* ================================================================== *)
(** * More about the runs *)
(* ================================================================== *)

Module RunFacts.
Import Spec Run PyFacts IndexFacts LoadFacts SyncFacts MainFacts.

Section Runs.
Variable json_loads : string -> option Entry.
Variable json_dumps : Entry -> string.
Variable get_nwb_assets_paged : string -> result (list Asset).
Variable process_asset : string -> Asset -> option Entry.

(** ** Tables and calls only grow *)

Lemma contains_set_keeps (k k' : string * string) (v : Entry)
  (cache : Rescan.Cache) :
  contains k cache = true -> contains k (set k' v cache) = true.
Proof.
  rewrite !contains_keys, In_keys_set. auto.
Qed.

Lemma cache_step_keeps (k : string * string) (c : string * Asset)
  (cache : Rescan.Cache) :
  contains k cache = true ->
  contains k (cache_step process_asset cache c) = true.
Proof.
  intros C. unfold cache_step.
  destruct (process_asset (fst c) (snd c)); [| exact C].
  now apply contains_set_keeps.
Qed.

Lemma grows_refl (st : Rescan.state) : grows st st.
Proof. split; auto. Qed.

Lemma grows_trans (s1 s2 s3 : Rescan.state) :
  grows s1 s2 -> grows s2 s3 -> grows s1 s3.
Proof. intros [A B] [C D]. split; auto. Qed.

Lemma after_call_grows (st : Rescan.state) (c : string * Asset) :
  grows st (after_call json_dumps process_asset st c).
Proof.
  split; simpl.
  - intros k. apply cache_step_keeps.
  - intros c' I. apply in_or_app. now left.
Qed.

Lemma sync_subject_grows (ds_id subj : string) (all_assets : list Asset)
  (st st' : Rescan.state) :
  Rescan.sync_subject json_dumps process_asset ds_id
    (Rescan.group_by_subject all_assets) st subj = Ok st' ->
  grows st st'.
Proof.
  rewrite sync_subject_eq.
  destruct (has_cached _ _ _).
  - intros E. injection E as <-. apply grows_refl.
  - destruct (sorted a_path (listed all_assets subj)) as [| a rest];
      [discriminate |].
    intros E. injection E as <-. apply after_call_grows.
Qed.

Lemma subjects_loop_grows (ds_id : string) (all_assets : list Asset)
  (subjs : list string) (st st' : Rescan.state) :
  for_each subjs
    (Rescan.sync_subject json_dumps process_asset ds_id
       (Rescan.group_by_subject all_assets)) st = Ok st' ->
  grows st st'.
Proof.
  intros E.
  apply (for_each_invariant (grows st) subjs
           (Rescan.sync_subject json_dumps process_asset ds_id
              (Rescan.group_by_subject all_assets))) with (s := st);
    [| apply grows_refl | exact E].
  intros s x s' _ G Ex. apply (grows_trans st s s' G).
  now apply (sync_subject_grows ds_id x all_assets).
Qed.

Lemma sync_dandiset_grows (ds_id : string) (st st' : Rescan.state) :
  Rescan.sync_dandiset json_dumps get_nwb_assets_paged process_asset st ds_id
  = Ok st' ->
  grows st st'.
Proof.
  intros E. unfold Rescan.sync_dandiset in E.
  apply bind_Ok in E. destruct E as (all_assets & _ & E).
  revert E. apply subjects_loop_grows.
Qed.

Lemma dandisets_loop_grows (dids : list string) (st st' : Rescan.state) :
  for_each dids
    (Rescan.sync_dandiset json_dumps get_nwb_assets_paged process_asset) st
  = Ok st' ->
  grows st st'.
Proof.
  intros E.
  apply (for_each_invariant (grows st) dids
           (Rescan.sync_dandiset json_dumps get_nwb_assets_paged
              process_asset)) with (s := st);
    [| apply grows_refl | exact E].
  intros s x s' _ G Ex. apply (grows_trans st s s' G).
  now apply (sync_dandiset_grows x).
Qed.

Lemma has_cached_grows (st st' : Rescan.state) (ds_id : string)
  (assets : list Asset) :
  grows st st' ->
  has_cached (Rescan.label_cache st) ds_id assets = true ->
  has_cached (Rescan.label_cache st') ds_id assets = true.
Proof.
  intros [G _]. unfold has_cached. rewrite !existsb_exists.
  intros (a & I & C). exists a. split; [exact I | now apply G].
Qed.

(** ** Every listed subject ends up cached, or its labeling failed *)

Lemma visit_covers (ds_id subj : string) (all_assets : list Asset)
  (st st' : Rescan.state) :
  Rescan.sync_subject json_dumps process_asset ds_id
    (Rescan.group_by_subject all_assets) st subj = Ok st' ->
  has_cached (Rescan.label_cache st') ds_id (listed all_assets subj) = true
  \/ exists a,
       first_smallest a_path a (listed all_assets subj)
       /\ In (ds_id, a) (Rescan.calls st')
       /\ process_asset ds_id a = None.
Proof.
  rewrite sync_subject_eq.
  destruct (has_cached (Rescan.label_cache st) ds_id (listed all_assets subj))
    eqn:Hc.
  - intros E. injection E as <-. now left.
  - destruct (sorted a_path (listed all_assets subj)) as [| a rest] eqn:Hs;
      [discriminate |].
    intros E. injection E as <-.
    pose proof (sorted_head a_path _ a rest Hs) as Hfirst.
    destruct (process_asset ds_id a) as [r |] eqn:P.
    + left. unfold has_cached. apply existsb_exists. exists a.
      split; [now apply (first_smallest_In a_path) |].
      unfold after_call, cache_step. simpl. rewrite P.
      unfold contains. now rewrite get_set_same.
    + right. exists a. split; [exact Hfirst |]. split; [| exact P].
      simpl. apply in_or_app. right. now left.
Qed.

Lemma subjects_loop_covers (ds_id subj : string) (all_assets : list Asset)
  (subjs : list string) (st st' : Rescan.state) :
  In subj subjs ->
  for_each subjs
    (Rescan.sync_subject json_dumps process_asset ds_id
       (Rescan.group_by_subject all_assets)) st = Ok st' ->
  has_cached (Rescan.label_cache st') ds_id (listed all_assets subj) = true
  \/ exists a,
       first_smallest a_path a (listed all_assets subj)
       /\ In (ds_id, a) (Rescan.calls st')
       /\ process_asset ds_id a = None.
Proof.
  intros I E. apply in_split in I. destruct I as (p & q & ->).
  rewrite for_each_app in E. apply bind_Ok in E.
  destruct E as (s1 & _ & E). simpl in E. apply bind_Ok in E.
  destruct E as (s2 & E2 & E3).
  apply subjects_loop_grows in E3.
  destruct (visit_covers ds_id subj all_assets s1 s2 E2)
    as [C | (a & F & Ic & P)].
  - left. now apply (has_cached_grows s2 st').
  - right. exists a. repeat split; auto. now apply (proj2 E3).
Qed.

Lemma synchronize_covers (loaded : Rescan.Cache) (st : Rescan.state)
  (ds_id : string) (all_assets : list Asset) (a0 : Asset) :
  Rescan.synchronize json_dumps get_nwb_assets_paged process_asset loaded
  = Ok st ->
  In ds_id (Rescan.dandiset_ids_of loaded) ->
  get_nwb_assets_paged ds_id = Ok all_assets ->
  In a0 all_assets ->
  has_cached (Rescan.label_cache st) ds_id
    (listed all_assets (subject_of (a_path a0))) = true
  \/ exists a,
       first_smallest a_path a (listed all_assets (subject_of (a_path a0)))
       /\ In (ds_id, a) (Rescan.calls st)
       /\ process_asset ds_id a = None.
Proof.
  unfold Rescan.synchronize. intros E Hds HL Ia0.
  apply in_split in Hds. destruct Hds as (p & q & Eds). rewrite Eds in E.
  rewrite for_each_app in E. apply bind_Ok in E.
  destruct E as (s1 & _ & E). simpl in E. apply bind_Ok in E.
  destruct E as (s2 & E2 & E3).
  apply dandisets_loop_grows in E3.
  unfold Rescan.sync_dandiset in E2. rewrite HL in E2. simpl in E2.
  destruct (subjects_loop_covers ds_id (subject_of (a_path a0)) all_assets
              (sorted (fun s => s) (keys (Rescan.group_by_subject all_assets)))
              s1 s2) as [C | (a & F & Ic & P)]; [| exact E2 | |].
  - apply sorted_In, group_by_subject_keys. eauto.
  - left. now apply (has_cached_grows s2 st).
  - right. exists a. repeat split; auto. now apply (proj2 E3).
Qed.

(** ** At most one call for a subject *)

Lemma visit_at_most_one (ds_id subj : string) (all_assets : list Asset)
  (st st' : Rescan.state) :
  calls_for ds_id subj (Rescan.calls st) = [] ->
  Rescan.sync_subject json_dumps process_asset ds_id
    (Rescan.group_by_subject all_assets) st subj = Ok st' ->
  List.length (calls_for ds_id subj (Rescan.calls st')) <= 1.
Proof.
  intros Hnone. rewrite sync_subject_eq.
  destruct (has_cached _ _ _).
  - intros E. injection E as <-. rewrite Hnone. simpl. lia.
  - destruct (sorted a_path (listed all_assets subj)) as [| a rest];
      [discriminate |].
    intros E. injection E as <-. simpl.
    rewrite calls_for_app, Hnone, calls_for_one. simpl.
    destruct (_ && _); simpl; lia.
Qed.

Lemma subjects_loop_at_most_one (ds_id subj : string)
  (all_assets : list Asset) (subjs : list string) (st st' : Rescan.state) :
  NoDup subjs ->
  calls_for ds_id subj (Rescan.calls st) = [] ->
  for_each subjs
    (Rescan.sync_subject json_dumps process_asset ds_id
       (Rescan.group_by_subject all_assets)) st = Ok st' ->
  List.length (calls_for ds_id subj (Rescan.calls st')) <= 1.
Proof.
  intros N Hnone E.
  destruct (in_dec string_dec subj subjs) as [I | NI].
  - apply in_split in I. destruct I as (p & q & ->).
    apply NoDup_remove_2 in N.
    assert (Hp : ~ In subj p) by (intros I; apply N, in_or_app; now left).
    assert (Hq : ~ In subj q) by (intros I; apply N, in_or_app; now right).
    rewrite for_each_app in E. apply bind_Ok in E.
    destruct E as (s1 & E1 & E). simpl in E. apply bind_Ok in E.
    destruct E as (s2 & E2 & E3).
    rewrite (subjects_loop_frame json_dumps process_asset ds_id subj ds_id
               all_assets q s2 st' (or_intror Hq) E3).
    apply (visit_at_most_one ds_id subj all_assets s1 s2); [| exact E2].
    rewrite <- Hnone.
    now apply (subjects_loop_frame json_dumps process_asset ds_id subj ds_id
                 all_assets p st s1 (or_intror Hp)).
  - rewrite (subjects_loop_frame json_dumps process_asset ds_id subj ds_id
               all_assets subjs st st' (or_intror NI) E).
    rewrite Hnone. simpl. lia.
Qed.

Lemma synchronize_at_most_one (loaded : Rescan.Cache) (st : Rescan.state)
  (ds_id subj : string) :
  Rescan.synchronize json_dumps get_nwb_assets_paged process_asset loaded
  = Ok st ->
  List.length (calls_for ds_id subj (Rescan.calls st)) <= 1.
Proof.
  unfold Rescan.synchronize. intros E.
  pose proof (sorted_set_NoDup (map fst (keys loaded))) as N.
  fold (Rescan.dandiset_ids_of loaded) in N.
  destruct (in_dec string_dec ds_id (Rescan.dandiset_ids_of loaded))
    as [I | NI].
  - apply in_split in I. destruct I as (p & q & Eds). rewrite Eds in *.
    apply NoDup_remove_2 in N.
    assert (Hp : ~ In ds_id p) by (intros I; apply N, in_or_app; now left).
    assert (Hq : ~ In ds_id q) by (intros I; apply N, in_or_app; now right).
    rewrite for_each_app in E. apply bind_Ok in E.
    destruct E as (s1 & E1 & E). simpl in E. apply bind_Ok in E.
    destruct E as (s2 & E2 & E3).
    rewrite (dandisets_loop_frame json_dumps get_nwb_assets_paged
               process_asset ds_id subj q s2 st Hq E3).
    pose proof (dandisets_loop_frame json_dumps get_nwb_assets_paged
                  process_asset ds_id subj p _ s1 Hp E1) as F1.
    simpl in F1.
    unfold Rescan.sync_dandiset in E2. apply bind_Ok in E2.
    destruct E2 as (all_assets & _ & E2).
    revert E2. apply subjects_loop_at_most_one; [| exact F1].
    apply sorted_NoDup, group_by_subject_NoDup.
  - rewrite (dandisets_loop_frame json_dumps get_nwb_assets_paged
               process_asset ds_id subj _ _ st NI E).
    simpl. lia.
Qed.

(** ** The calls are for dandisets of the loaded cache *)

Lemma sync_subject_calls_fst (ds_id subj : string) (all_assets : list Asset)
  (st st' : Rescan.state) (c : string * Asset) :
  Rescan.sync_subject json_dumps process_asset ds_id
    (Rescan.group_by_subject all_assets) st subj = Ok st' ->
  In c (Rescan.calls st') -> In c (Rescan.calls st) \/ fst c = ds_id.
Proof.
  rewrite sync_subject_eq.
  destruct (has_cached _ _ _).
  - intros E. injection E as <-. auto.
  - destruct (sorted a_path (listed all_assets subj)) as [| a rest];
      [discriminate |].
    intros E. injection E as <-. simpl. rewrite in_app_iff. simpl.
    intros [I | [<- | []]]; auto.
Qed.

Lemma sync_dandiset_calls_fst (ds_id : string) (st st' : Rescan.state)
  (c : string * Asset) :
  Rescan.sync_dandiset json_dumps get_nwb_assets_paged process_asset st ds_id
  = Ok st' ->
  In c (Rescan.calls st') -> In c (Rescan.calls st) \/ fst c = ds_id.
Proof.
  intros E. unfold Rescan.sync_dandiset in E.
  apply bind_Ok in E. destruct E as (all_assets & _ & E).
  revert E.
  apply (for_each_invariant
           (fun s => In c (Rescan.calls s) ->
                     In c (Rescan.calls st) \/ fst c = ds_id)).
  - intros s x s' _ Hs Ex I.
    destruct (sync_subject_calls_fst ds_id x all_assets s s' c Ex I); auto.
  - auto.
Qed.

Lemma synchronize_calls_known (loaded : Rescan.Cache) (st : Rescan.state)
  (c : string * Asset) :
  Rescan.synchronize json_dumps get_nwb_assets_paged process_asset loaded
  = Ok st ->
  In c (Rescan.calls st) -> In (fst c) (Rescan.dandiset_ids_of loaded).
Proof.
  unfold Rescan.synchronize.
  apply (for_each_invariant
           (fun s => In c (Rescan.calls s) ->
                     In (fst c) (Rescan.dandiset_ids_of loaded))).
  - intros s d s' Hd Hs Ed I.
    destruct (sync_dandiset_calls_fst d s s' c Ed I) as [I' | <-]; auto.
  - simpl. contradiction.
Qed.

(** ** A listing that raises ends the run *)


(** ** The file and the table after a run *)

Lemma reload_appended (calls : list (string * Asset)) (cache : Rescan.Cache) :
  (forall c result,
      In c calls -> process_asset (fst c) (snd c) = Some result ->
      json_loads (strip (String.append (json_dumps result) LF)) = Some result
      /\ is_empty (strip (String.append (json_dumps result) LF)) = false
      /\ entry_key result = (fst c, a_asset_id (snd c))) ->
  for_each (log_after json_dumps process_asset calls)
    (Rescan.load_line json_loads) cache
  = Ok (cache_after process_asset calls cache).
Proof.
  revert cache. induction calls as [| c calls IH]; intros cache H;
    [reflexivity |].
  unfold log_after, cache_after. cbn [flat_map fold_left].
  rewrite for_each_app.
  fold (log_after json_dumps process_asset calls).
  fold (cache_after process_asset calls (cache_step process_asset cache c)).
  assert (H' : forall c' result,
             In c' calls -> process_asset (fst c') (snd c') = Some result ->
             json_loads (strip (String.append (json_dumps result) LF))
             = Some result
             /\ is_empty (strip (String.append (json_dumps result) LF)) = false
             /\ entry_key result = (fst c', a_asset_id (snd c')))
    by (intros c' r I; apply H; now right).
  unfold log_of, cache_step.
  destruct (process_asset (fst c) (snd c)) as [r |] eqn:P.
  - destruct (H c r (or_introl eq_refl) P) as (Hl & Hb & Hk).
    cbn [for_each]. unfold Rescan.load_line at 1. rewrite Hb, Hl.
    cbn [bind]. fold (entry_key r). rewrite Hk.
    rewrite <- (IH _ H'). unfold cache_step. reflexivity.
  - cbn [for_each bind]. apply (IH _ H').
Qed.

(** ** The dandisets of the table after a run *)

Lemma dandisets_after_run (loaded : Rescan.Cache) (st : Rescan.state)
  (ds_id : string) :
  Rescan.synchronize json_dumps get_nwb_assets_paged process_asset loaded
  = Ok st ->
  In ds_id (Rescan.dandiset_ids_of (Rescan.label_cache st)) ->
  In ds_id (Rescan.dandiset_ids_of loaded).
Proof.
  intros Hs I. unfold Rescan.dandiset_ids_of in *.
  rewrite sorted_set_In in I. rewrite sorted_set_In.
  apply in_map_iff in I. destruct I as (k & <- & Ik).
  apply contains_keys in Ik.
  pose proof (synchronize_invariant json_dumps get_nwb_assets_paged
                process_asset loaded st Hs) as (_ & Hcache & _).
  rewrite Hcache in Ik. apply cache_after_keys in Ik.
  destruct Ik as [C | (c & Ic & ->)].
  - apply contains_keys in C. now apply in_map.
  - simpl. rewrite <- (sorted_set_In (map fst (keys loaded))).
    now apply (synchronize_calls_known loaded st c Hs).
Qed.

(** ** The file after the run *)

Lemma text_append_assoc (s t u : string) :
  String.append (String.append s t) u = String.append s (String.append t u).
Proof.
  induction s as [| c s IH]; simpl; [reflexivity | now rewrite IH].
Qed.

Lemma text_append_empty (s : string) : String.append s EmptyString = s.
Proof.
  induction s as [| c s IH]; simpl; [reflexivity | now rewrite IH].
Qed.

Lemma read_lines_terminated (line rest : string) :
  terminated line = true ->
  read_lines (String.append line rest) = line :: read_lines rest.
Proof.
  induction line as [| c line IH]; [discriminate |].
  simpl. destruct (Ascii.eqb c (ascii_of_nat 10)).
  - destruct line; [reflexivity | discriminate].
  - intros T. now rewrite (IH T).
Qed.

Lemma read_lines_text_of (lines : list string) (rest : string) :
  forallb terminated lines = true ->
  read_lines (String.append (text_of lines) rest) = lines ++ read_lines rest.
Proof.
  induction lines as [| line lines IH]; simpl; [reflexivity |].
  intros T. apply andb_true_iff in T. destruct T as [T1 T2].
  rewrite text_append_assoc, (read_lines_terminated _ _ T1).
  now rewrite (IH T2).
Qed.

Lemma file_after_terminated (file : option (list string))
  (written : list string) :
  forallb terminated (lines_of file) = true ->
  forallb terminated written = true ->
  file_after file written = lines_of file ++ written.
Proof.
  intros T1 T2. unfold file_after.
  rewrite (read_lines_text_of _ _ T1).
  rewrite <- (text_append_empty (text_of written)).
  rewrite (read_lines_text_of _ _ T2). simpl. now rewrite app_nil_r.
Qed.

Lemma log_after_terminated (calls : list (string * Asset)) :
  (forall c result,
      In c calls -> process_asset (fst c) (snd c) = Some result ->
      terminated (String.append (json_dumps result) LF) = true) ->
  forallb terminated (log_after json_dumps process_asset calls) = true.
Proof.
  induction calls as [| c calls IH]; intros H; [reflexivity |].
  unfold log_after. cbn [flat_map]. rewrite forallb_app.
  fold (log_after json_dumps process_asset calls).
  rewrite IH by (intros c' r I; apply H; now right).
  unfold log_of. destruct (process_asset (fst c) (snd c)) as [r |] eqn:P;
    [| reflexivity].
  simpl. now rewrite (H c r (or_introl eq_refl) P).
Qed.

End Runs.

(** ** A second run *)

Lemma second_run_retries_failures
  (dumps1 dumps2 : Entry -> string)
  (listing1 listing2 : string -> result (list Asset))
  (process1 process2 : string -> Asset -> option Entry)
  (loaded : Rescan.Cache) (st1 st2 : Rescan.state) (c : string * Asset) :
  Rescan.synchronize dumps1 listing1 process1 loaded = Ok st1 ->
  (forall ds_id, In ds_id (Rescan.dandiset_ids_of loaded) ->
                 listing2 ds_id = listing1 ds_id) ->
  Rescan.synchronize dumps2 listing2 process2 (Rescan.label_cache st1)
  = Ok st2 ->
  In c (Rescan.calls st2) ->
  In c (Rescan.calls st1) /\ process1 (fst c) (snd c) = None.
Proof.
  intros H1 Hsame H2 Ic.
  pose proof (synchronize_invariant dumps2 listing2 process2
                (Rescan.label_cache st1) st2 H2)
    as (_ & _ & _ & _ & F).
  rewrite Forall_forall in F.
  destruct (F c Ic) as (L & HL & Hfirst & Hnc).
  pose proof (synchronize_calls_known dumps2 listing2 process2
                (Rescan.label_cache st1) st2 c H2 Ic) as Hd.
  apply (dandisets_after_run dumps1 listing1 process1 loaded st1 (fst c) H1)
    in Hd.
  rewrite (Hsame _ Hd) in HL.
  pose proof (first_smallest_In a_path _ _ Hfirst) as Ia.
  apply listed_In in Ia. destruct Ia as [Ia _].
  destruct (synchronize_covers dumps1 listing1 process1 loaded st1 (fst c) L
              (snd c) H1 Hd HL Ia)
    as [C | (a & Fa & Ica & P)].
  - congruence.
  - pose proof (first_smallest_unique a_path _ _ _ Fa Hfirst) as ->.
    destruct c as [d a]. simpl in *. auto.
Qed.

(** ** A last line without an end of line *)

(** The first text written goes on the line the file ends with, and the line
    they make does not decode. *)
Lemma unterminated_last_line_glued :
  file_after (Some Demo2.file_open) [Demo.line "line-b"]
  = [Demo.line "line-a"; Demo.line "line-2line-b"]
  /\ Rescan.load_label_cache Demo.json_loads
       (Some (file_after (Some Demo2.file_open) [Demo.line "line-b"]))
     = Raise JSONDecodeError.
Proof.
  split; vm_compute; reflexivity.
Qed.

End RunFacts.

(* ================================================================== *)
(** * More about subjects, regions, the table and the index *)
(* ================================================================== *)

Module MoreFacts.
Import Spec Run PyFacts IndexFacts LoadFacts.

(** ** Subjects *)

Lemma before_prefix (c : ascii) (s : string) :
  String.prefix (before c s) s = true.
Proof.
  induction s as [| a s IH]; simpl; [reflexivity |].
  destruct (Ascii.eqb a c); simpl; [reflexivity |].
  destruct (ascii_dec a a); [exact IH | congruence].
Qed.

Lemma before_without (c : ascii) (s : string) : occurs c (before c s) = false.
Proof.
  induction s as [| a s IH]; simpl; [reflexivity |].
  destruct (Ascii.eqb a c) eqn:E; simpl; [reflexivity |].
  now rewrite E.
Qed.

Lemma before_occurs_of (c c' : ascii) (s : string) :
  occurs c' s = false -> occurs c' (before c s) = false.
Proof.
  induction s as [| a s IH]; simpl; [reflexivity |].
  intros O. apply orb_false_elim in O. destruct O as [O1 O2].
  destruct (Ascii.eqb a c); simpl; [reflexivity |].
  now rewrite O1, IH.
Qed.

Lemma subject_of_prefix (path : string) :
  String.prefix (subject_of path) path = true.
Proof.
  unfold subject_of. destruct (occurs slash path); apply before_prefix.
Qed.

Lemma subject_of_no_slash (path : string) :
  occurs slash (subject_of path) = false.
Proof.
  unfold subject_of. destruct (occurs slash path) eqn:O.
  - apply before_without.
  - now apply before_occurs_of.
Qed.

Lemma subject_of_no_underscore (path : string) :
  occurs slash path = false -> occurs underscore (subject_of path) = false.
Proof.
  intros O. unfold subject_of. rewrite O. apply before_without.
Qed.

(** ** Regions *)

Lemma scan_ids (ms : list Match) (seen : list Z) (i : Z) :
  In i (map r_id (snd (scan seen ms))) <->
  excluded i = false /\ ~ In i seen /\ In i (map m_id ms).
Proof.
  revert seen. induction ms as [| m ms IH]; intros seen; simpl.
  - tauto.
  - destruct (negb (excluded (m_id m)) && negb (id_in (m_id m) seen)) eqn:K.
    + apply andb_prop in K. destruct K as [K1 K2].
      apply negb_true_iff in K1, K2.
      assert (Hm : ~ In (m_id m) seen)
        by (intros I; apply RegionFacts.id_in_spec in I; congruence).
      specialize (IH (m_id m :: seen)).
      destruct (scan (m_id m :: seen) ms) as [s r]. simpl in *.
      rewrite IH. split.
      * intros [<- | (E & N & I)]; [auto |].
        repeat split; auto.
      * intros (E & N & [<- | I]); [now left |].
        destruct (Z.eq_dec (m_id m) i) as [-> | Ne]; [now left | right].
        repeat split; auto. intros [? | ?]; auto.
    + rewrite IH. split.
      * intros (E & N & I). auto.
      * intros (E & N & [<- | I]); [| auto].
        exfalso. rewrite E in K. simpl in K. apply negb_false_iff in K.
        apply RegionFacts.id_in_spec in K. contradiction.
Qed.

Lemma scan_from_matches (ms : list Match) (seen : list Z) (r : Region) :
  In r (snd (scan seen ms)) -> exists m, In m ms /\ r = region_of m.
Proof.
  revert seen. induction ms as [| m ms IH]; intros seen; simpl;
    [contradiction |].
  destruct (negb (excluded (m_id m)) && negb (id_in (m_id m) seen)).
  - specialize (IH (m_id m :: seen)).
    destruct (scan (m_id m :: seen) ms) as [s rs]. simpl in *.
    intros [<- | I]; [eauto |].
    destruct (IH I) as (m' & I' & E). eauto.
  - intros I. destruct (IH seen I) as (m' & I' & E). eauto.
Qed.

(** ** The table *)

Lemma table_fold_items (es : list Entry) (cache : Rescan.Cache)
  (item : (string * string) * Entry) :
  In item (fold_left (fun c e => set (entry_key e) e c) es cache) ->
  In item cache \/ (In (snd item) es /\ fst item = entry_key (snd item)).
Proof.
  revert cache. induction es as [| e es IH]; intros cache; simpl;
    [auto |].
  intros I. apply IH in I. destruct I as [I | [I K]]; [| auto].
  apply In_set in I. destruct I as [-> | I]; simpl; auto.
Qed.

Lemma table_of_items (es : list Entry) (item : (string * string) * Entry) :
  In item (table_of es) ->
  In (snd item) es /\ fst item = entry_key (snd item).
Proof.
  intros I. apply table_fold_items in I. destruct I as [[] | I]. exact I.
Qed.

Lemma decode_all_In (json_loads : string -> option Entry)
  (lines : list string) (es : list Entry) (e : Entry) :
  decode_all json_loads lines = Some es -> In e es ->
  exists line, In line lines /\ json_loads line = Some e.
Proof.
  revert es. induction lines as [| l lines IH]; intros es; simpl.
  - intros E. injection E as <-. contradiction.
  - destruct (json_loads l) as [e' |] eqn:L; [| discriminate].
    destruct (decode_all json_loads lines) as [es' |]; [| discriminate].
    intros E. injection E as <-. intros [<- | I].
    + exists l. auto.
    + destruct (IH es' eq_refl I) as (line & I' & L'). eauto.
Qed.

Lemma decode_all_fails (json_loads : string -> option Entry)
  (lines : list string) (line : string) :
  In line lines -> json_loads line = None ->
  decode_all json_loads lines = None.
Proof.
  induction lines as [| l lines IH]; simpl; [contradiction |].
  intros [-> | I] L.
  - now rewrite L.
  - destruct (json_loads l); [| reflexivity]. now rewrite (IH I L).
Qed.

Lemma stripped_lines_In (lines : list string) (s : string) :
  In s (stripped_lines lines) <->
  exists line, In line lines /\ strip line = s /\ s <> EmptyString.
Proof.
  unfold stripped_lines. rewrite filter_In, in_map_iff. split.
  - intros ((line & E & I) & B). exists line. repeat split; auto.
    intros ->. discriminate.
  - intros (line & I & E & N). split; [eauto |].
    destruct s; [congruence | reflexivity].
Qed.

Lemma stripped_lines_blank (lines : list string) :
  (forall line, In line lines -> strip line = EmptyString) ->
  stripped_lines lines = [].
Proof.
  intros B. destruct (stripped_lines lines) as [| s l] eqn:E; [reflexivity |].
  assert (I : In s (stripped_lines lines)) by (rewrite E; now left).
  apply stripped_lines_In in I. destruct I as (line & I & Es & N).
  rewrite (B line I) in Es. congruence.
Qed.

(** ** The index *)

Section IndexMore.
Context {T : Type}.
Variable did_of : T -> string.
Variable entry_of : T -> Entry.

Lemma spec_index_assets (ts : list T) :
  assets_from_entries did_of entry_of ts (spec_index did_of entry_of ts).
Proof.
  intros did recs I. apply spec_index_In in I. destruct I as [Hd ->].
  split.
  - apply dandisets_of_In in Hd. destruct Hd as (t & It & D).
    assert (Hs : In (subject_at entry_of t) (subjects_of did_of entry_of ts did))
      by (apply subjects_of_In; eauto).
    destruct (canonical_group did_of entry_of ts did _ Hs) as (e & Ec & _).
    intros N.
    assert (Ir : In (asset_record e)
                   (flat_map
                      (fun subj => canonical (group did_of entry_of ts did subj))
                      (subjects_of did_of entry_of ts did))).
    { apply in_flat_map. exists (subject_at entry_of t).
      split; [exact Hs |]. rewrite Ec. now left. }
    now rewrite N in Ir.
  - intros r Ir. apply in_flat_map in Ir. destruct Ir as (subj & Hs & Ir).
    destruct (canonical_group did_of entry_of ts did subj Hs)
      as (e & Ec & F & _).
    rewrite Ec in Ir. destruct Ir as [<- | []].
    apply (first_smallest_In e_path), group_In in F.
    destruct F as (t & It & <- & D & _). eauto.
Qed.

End IndexMore.

Lemma pick_ext {X : Type} (k1 k2 : X -> string) (m1 m2 : X -> IndexAsset)
  (l : list X) :
  (forall x, k1 x = k2 x) -> (forall x, m1 x = m2 x) ->
  pick k1 m1 l = pick k2 m2 l.
Proof.
  intros K M. unfold pick. rewrite (sorted_ext k1 k2 l K).
  destruct (sorted k2 l); [reflexivity |]. now rewrite M.
Qed.

Lemma pick_map {X Y : Type} (f : X -> Y) (key : Y -> string)
  (mk : Y -> IndexAsset) (l : list X) :
  pick key mk (map f l) = pick (fun x => key (f x)) (fun x => mk (f x)) l.
Proof.
  unfold pick. rewrite sorted_map.
  now destruct (sorted (fun a => key (f a)) l).
Qed.

(** The index depends on the entries through their dandiset, path, asset id
    and regions only. *)
Lemma spec_index_ext {T : Type} (did_of : T -> string)
  (entry1 entry2 : T -> Entry) (ts : list T) :
  (forall t, e_path (entry1 t) = e_path (entry2 t)) ->
  (forall t, asset_record (entry1 t) = asset_record (entry2 t)) ->
  spec_index did_of entry1 ts = spec_index did_of entry2 ts.
Proof.
  intros P R.
  assert (S : forall t, subject_at entry1 t = subject_at entry2 t)
    by (intros t; unfold subject_at; now rewrite P).
  unfold spec_index. apply map_ext. intros did. f_equal.
  unfold subjects_of. rewrite (map_ext _ _ S).
  apply flat_map_ext. intros subj. unfold canonical, group, members.
  rewrite !pick_map.
  rewrite (filter_ext
             (fun t => String.eqb (did_of t) did
                       && String.eqb (subject_at entry1 t) subj)
             (fun t => String.eqb (did_of t) did
                       && String.eqb (subject_at entry2 t) subj))
    by (intros t; now rewrite S).
  now apply pick_ext.
Qed.

(** The three outcomes of [generate_dandiset_assets.main]. *)
Lemma generate_main_cases (json_loads : string -> option Entry)
  (file : option (list string)) :
  Generate.main json_loads file =
  match file with
  | None => Raise FileNotFoundError
  | Some lines =>
      match decode_all json_loads lines with
      | Some es => Ok (spec_index e_dandiset_id same_entry es)
      | None => Raise JSONDecodeError
      end
  end.
Proof.
  destruct file as [lines |]; [| reflexivity].
  destruct (decode_all json_loads lines) as [es |] eqn:D.
  - now apply generate_main_spec.
  - unfold Generate.main. now rewrite generate_read_fails.
Qed.

End MoreFacts.

(* ================================================================== *)
(** * The results of a run in its table *)
(* ================================================================== *)

Module ResultFacts.
Import Spec Run PyFacts IndexFacts LoadFacts SyncFacts MainFacts.

Section Results.
Variable json_dumps : Entry -> string.
Variable get_nwb_assets_paged : string -> result (list Asset).
Variable process_asset : string -> Asset -> option Entry.

Lemma after_call_results (loaded : Rescan.Cache) (st : Rescan.state)
  (c : string * Asset) :
  contains (fst c, a_asset_id (snd c)) (Rescan.label_cache st) = false ->
  results_kept process_asset loaded st ->
  results_kept process_asset loaded
    (after_call json_dumps process_asset st c).
Proof.
  intros Hfresh (Hlen & Hold & Hres).
  apply contains_false_keys in Hfresh.
  unfold results_kept, after_call, cache_step, log_of. simpl.
  destruct (process_asset (fst c) (snd c)) as [r |] eqn:P.
  - rewrite (set_fresh _ _ _ Hfresh). split; [| split].
    + rewrite length_app. simpl. lia.
    + intros item I. apply in_or_app. left. now apply Hold.
    + intros c' r' I P'. apply in_app_or in I.
      destruct I as [I | [<- | []]].
      * apply in_or_app. left. now apply Hres.
      * apply in_or_app. right. left. congruence.
  - split; [| split].
    + simpl. lia.
    + exact Hold.
    + intros c' r' I P'. apply in_app_or in I.
      destruct I as [I | [<- | []]]; [now apply Hres | congruence].
Qed.

Lemma sync_subject_results (loaded : Rescan.Cache) (ds_id subj : string)
  (all_assets : list Asset) (st st' : Rescan.state) :
  results_kept process_asset loaded st ->
  Rescan.sync_subject json_dumps process_asset ds_id
    (Rescan.group_by_subject all_assets) st subj = Ok st' ->
  results_kept process_asset loaded st'.
Proof.
  intros R. rewrite sync_subject_eq.
  destruct (has_cached _ _ _) eqn:Hc.
  - intros E. now injection E as <-.
  - destruct (sorted a_path (listed all_assets subj)) as [| a rest] eqn:Hs;
      [discriminate |].
    intros E. injection E as <-.
    apply after_call_results; [| exact R]. simpl.
    apply (proj1 (has_cached_false _ _ _) Hc).
    now apply (first_smallest_In a_path), (sorted_head a_path _ a rest).
Qed.

Lemma synchronize_results (loaded : Rescan.Cache) (st : Rescan.state) :
  Rescan.synchronize json_dumps get_nwb_assets_paged process_asset loaded
  = Ok st ->
  results_kept process_asset loaded st.
Proof.
  unfold Rescan.synchronize.
  apply (for_each_invariant (results_kept process_asset loaded)).
  - intros s d s' _ R E. unfold Rescan.sync_dandiset in E.
    apply bind_Ok in E. destruct E as (all_assets & _ & E).
    revert R E.
    apply (for_each_invariant (results_kept process_asset loaded)).
    intros s1 subj s2 _ R1 E1.
    now apply (sync_subject_results loaded d subj all_assets s1 s2).
  - unfold results_kept. simpl. repeat split; auto.
    intros c r [].
Qed.

Lemma log_after_length (calls : list (string * Asset)) :
  List.length (log_after json_dumps process_asset calls)
  = List.length (filter (succeeded process_asset) calls).
Proof.
  induction calls as [| c calls IH]; [reflexivity |].
  unfold log_after in *. cbn [flat_map filter]. rewrite length_app, IH.
  unfold log_of, succeeded.
  now destruct (process_asset (fst c) (snd c)).
Qed.

(** An item of the table has an asset in the index. *)
Lemma item_indexed (cache : Rescan.Cache)
  (item : (string * string) * Entry) :
  In item cache ->
  index_records (spec_index item_dandiset item_entry cache)
    (item_dandiset item) (subject_at item_entry item) <> [].
Proof.
  intros I.
  destruct (spec_index_ordered item_dandiset item_entry cache)
    as (_ & Hkeys & Hrecs).
  assert (Hd : In (item_dandiset item)
                 (keys (spec_index item_dandiset item_entry cache)))
    by (apply Hkeys; eauto).
  unfold index_records, get_default.
  destruct (get (item_dandiset item)
              (spec_index item_dandiset item_entry cache)) as [recs |] eqn:G.
  - apply get_In in G. destruct (Hrecs _ _ G) as [_ Hsub].
    assert (Is : In (subject_at item_entry item) (map record_subject recs))
      by (apply Hsub; eauto).
    apply in_map_iff in Is. destruct Is as (r & Er & Ir).
    intros N.
    assert (F : In r (filter
                        (fun r => String.eqb (record_subject r)
                                    (subject_at item_entry item)) recs)).
    { apply filter_In. split; [exact Ir | now apply String.eqb_eq]. }
    now rewrite N in F.
  - apply get_None_keys in G. contradiction.
Qed.

End Results.

End ResultFacts.

(* ================================================================== *)
(** * The properties of the specification *)
(* ================================================================== *)

Import Spec.

(** C1.  The regions of an entry, as both scripts compute them for the asset
    of the index, are the region-match records of its [matched_locations]
    taken by location key and then by match, each kept when its id is not 8
    or 997 and has not occurred before; no id occurs twice among them and
    none is 8 or 997. *)
Theorem regions_first_seen_without_excluded (e : Entry) :
  Generate.unique_regions_of (Generate.regions_of (e_matched_locations e))
  = first_seen_regions (all_matches (e_matched_locations e))
  /\ Rescan.regions_of (e_matched_locations e)
     = first_seen_regions (all_matches (e_matched_locations e))
  /\ NoDup (map r_id (first_seen_regions (all_matches (e_matched_locations e))))
  /\ Forall (fun r => r_id r <> 8%Z /\ r_id r <> 997%Z)
       (first_seen_regions (all_matches (e_matched_locations e))).
Proof.
  rewrite RegionFacts.generate_regions_scan, RegionFacts.rescan_regions_scan,
    RegionFacts.first_seen_regions_scan.
  destruct (RegionFacts.scan_kept (all_matches (e_matched_locations e)) [])
    as [F N].
  repeat split; [exact N |].
  eapply Forall_impl; [| exact F]. simpl. intros r [Ex _].
  unfold excluded in Ex. apply orb_false_elim in Ex. destruct Ex as [E8 E997].
  apply Z.eqb_neq in E8, E997. now split.
Qed.

(** C7.  The subject of a path is its first segment when the path has a
    separator and what comes before its first underscore otherwise (the
    whole path without an underscore); the two scripts derive it alike. *)
Theorem extract_subject_first_segment (path : string) :
  Generate.extract_subject path = subject_of path
  /\ Rescan.extract_subject path = subject_of path
  /\ Generate.extract_subject "sub-01/sample.nwb" = "sub-01"
  /\ Generate.extract_subject "sub-01_ses-02.nwb" = "sub-01"
  /\ Rescan.extract_subject "sub-01/sample.nwb" = "sub-01"
  /\ Rescan.extract_subject "sub-01_ses-02.nwb" = "sub-01".
Proof.
  repeat split; try reflexivity; apply SubjectFacts.extract_subject_eq.
Qed.

(** C2.  In the index of either script the asset of a subject is made from
    the entry with the smallest path among the entries of the dandiset and
    subject (the first of them in the cache when several have that
    path). *)
Theorem canonical_asset_smallest_path
  (json_loads : string -> option Entry) (lines : list string)
  (es : list Entry) (cache : Rescan.Cache) :
  decode_all json_loads lines = Some es ->
  exists generated regenerated,
    Generate.main json_loads (Some lines) = Ok generated
    /\ Rescan.regenerate cache = Ok regenerated
    /\ smallest_path_kept e_dandiset_id same_entry es generated
    /\ smallest_path_kept item_dandiset item_entry cache regenerated.
Proof.
  intros D.
  exists (spec_index e_dandiset_id same_entry es).
  exists (spec_index item_dandiset item_entry cache).
  split; [now apply IndexFacts.generate_main_spec |].
  split; [apply IndexFacts.regenerate_spec |].
  split; apply IndexFacts.spec_index_smallest.
Qed.

Lemma canonical_asset_smallest_path_witness :
  exists generated regenerated,
    Generate.main Demo.json_loads (Some Demo.file_ab2) = Ok generated
    /\ Rescan.regenerate (table_of [Demo.entry_b; Demo.entry_a; Demo.entry_2])
       = Ok regenerated
    /\ smallest_path_kept e_dandiset_id same_entry
         [Demo.entry_b; Demo.entry_a; Demo.entry_2] generated
    /\ smallest_path_kept item_dandiset item_entry
         (table_of [Demo.entry_b; Demo.entry_a; Demo.entry_2]) regenerated.
Proof.
  apply (canonical_asset_smallest_path Demo.json_loads Demo.file_ab2).
  reflexivity.
Defined.

(** C9.  In the index of either script the dandisets are in ascending order
    of their id and the assets of a dandiset in ascending order of their
    subject, with one asset for each subject of the entries of the dandiset
    and for no other. *)
Theorem index_ascending_one_asset_per_subject
  (json_loads : string -> option Entry) (lines : list string)
  (es : list Entry) (cache : Rescan.Cache) :
  decode_all json_loads lines = Some es ->
  exists generated regenerated,
    Generate.main json_loads (Some lines) = Ok generated
    /\ Rescan.regenerate cache = Ok regenerated
    /\ ordered_one_per_subject e_dandiset_id same_entry es generated
    /\ ordered_one_per_subject item_dandiset item_entry cache regenerated.
Proof.
  intros D.
  exists (spec_index e_dandiset_id same_entry es).
  exists (spec_index item_dandiset item_entry cache).
  split; [now apply IndexFacts.generate_main_spec |].
  split; [apply IndexFacts.regenerate_spec |].
  split; apply IndexFacts.spec_index_ordered.
Qed.

Lemma index_ascending_one_asset_per_subject_witness :
  exists generated regenerated,
    Generate.main Demo.json_loads (Some Demo.file_ab2) = Ok generated
    /\ Rescan.regenerate (table_of [Demo.entry_b; Demo.entry_a; Demo.entry_2])
       = Ok regenerated
    /\ ordered_one_per_subject e_dandiset_id same_entry
         [Demo.entry_b; Demo.entry_a; Demo.entry_2] generated
    /\ ordered_one_per_subject item_dandiset item_entry
         (table_of [Demo.entry_b; Demo.entry_a; Demo.entry_2]) regenerated.
Proof.
  apply (index_ascending_one_asset_per_subject Demo.json_loads Demo.file_ab2).
  reflexivity.
Defined.

(** C3.  The run labels again a subject that has an entry in the cache,
    where the claim, the comment of line 90 and the docstring of the script
    have it skipped.  The cache file has one line, the entry of subject
    sub-01 of dandiset 000001 under asset id asset-a, and the listing of the
    dandiset has the file of sub-01 under the asset id asset-a2: the loaded
    table has an entry of the dandiset whose path gives sub-01, and the run
    calls [process_asset] for sub-01 and writes its result to the file. *)
Lemma cached_subject_labelled_again :
  exists cache st idx,
    Rescan.load_label_cache Demo.json_loads (Some Demo.file_a) = Ok cache
    /\ Rescan.main Demo.json_loads Demo.json_dumps Demo.listing_again
         Demo.process_asset (Some Demo.file_a) = Ok (st, idx)
    /\ Demo.listing_again Demo.ds1 = Ok [Demo.asset_a2]
    /\ cached_subject cache Demo.ds1 (subject_of (a_path Demo.asset_a2)) = true
    /\ calls_for Demo.ds1 (subject_of (a_path Demo.asset_a2)) (Rescan.calls st)
       = [(Demo.ds1, Demo.asset_a2)]
    /\ Rescan.appended st = [Demo.line "asset-a2"].
Proof.
  eexists. eexists. eexists.
  split; [vm_compute; reflexivity |].
  split; [vm_compute; reflexivity |].
  repeat split.
Qed.

(** C4.  For a dandiset of the loaded cache whose listing has distinct asset
    ids, and a subject of the listing none of whose listed assets has its
    key in the loaded table, the run calls [process_asset] once for that
    dandiset and subject: on the first listed asset of the subject with the
    smallest path. *)
Theorem missing_subject_labelled_once
  (json_loads : string -> option Entry) (json_dumps : Entry -> string)
  (get_nwb_assets_paged : string -> result (list Asset))
  (process_asset : string -> Asset -> option Entry)
  (file : option (list string)) (cache : Rescan.Cache) (st : Rescan.state)
  (idx : Index) (ds_id : string) (all_assets : list Asset) (a0 : Asset) :
  Rescan.load_label_cache json_loads file = Ok cache ->
  Rescan.main json_loads json_dumps get_nwb_assets_paged process_asset file
  = Ok (st, idx) ->
  In ds_id (Rescan.dandiset_ids_of cache) ->
  get_nwb_assets_paged ds_id = Ok all_assets ->
  NoDup (map a_asset_id all_assets) ->
  In a0 all_assets ->
  has_cached cache ds_id (listed all_assets (subject_of (a_path a0))) = false ->
  exists a,
    first_smallest a_path a (listed all_assets (subject_of (a_path a0)))
    /\ calls_for ds_id (subject_of (a_path a0)) (Rescan.calls st)
       = [(ds_id, a)].
Proof.
  intros Hload Hmain Hds HL Hids Ia0 Hnc.
  apply MainFacts.main_Ok in Hmain. destruct Hmain as (cache' & Hload' & Hs & _).
  rewrite Hload in Hload'. injection Hload' as <-.
  now apply (SyncFacts.one_call_when_missing json_dumps get_nwb_assets_paged
               process_asset cache st ds_id all_assets a0).
Qed.

Lemma missing_subject_labelled_once_witness :
  exists a,
    first_smallest a_path a
      (listed [Demo.asset_a; Demo.asset_3b; Demo.asset_3a; Demo.asset_4]
         (subject_of (a_path Demo.asset_3b)))
    /\ calls_for Demo.ds1 (subject_of (a_path Demo.asset_3b))
         [(Demo.ds1, Demo.asset_3a); (Demo.ds1, Demo.asset_4)]
       = [(Demo.ds1, a)].
Proof.
  apply (missing_subject_labelled_once Demo.json_loads Demo.json_dumps
           Demo.listing Demo.process_asset (Some Demo.file_a)
           [(entry_key Demo.entry_a, Demo.entry_a)]
           (Rescan.mkState
              [(entry_key Demo.entry_a, Demo.entry_a);
               ((Demo.ds1, "asset-3a"),
                mkEntry Demo.ds1 "asset-3a" "sub-03/a.nwb" "ok"
                  [("loc1", [Demo.cortex])])]
              [Demo.line "asset-3a"]
              [(Demo.ds1, Demo.asset_3a); (Demo.ds1, Demo.asset_4)]
              1)
           [(Demo.ds1,
             [asset_record Demo.entry_a;
              mkIndexAsset "sub-03/a.nwb" "asset-3a"
                [mkRegion 315 "CTX" "Cortex"]])]
           Demo.ds1 [Demo.asset_a; Demo.asset_3b; Demo.asset_3a; Demo.asset_4]
           Demo.asset_3b).
  - reflexivity.
  - vm_compute. reflexivity.
  - vm_compute. auto.
  - reflexivity.
  - repeat constructor; simpl; intuition discriminate.
  - simpl. auto.
  - reflexivity.
Defined.

Lemma demo_process_keeps_path (ds_id : string) (a : Asset) (result : Entry) :
  Demo.process_asset ds_id a = Some result -> e_path result = a_path a.
Proof.
  unfold Demo.process_asset.
  destruct (String.eqb (a_asset_id a) "asset-4"); [discriminate |].
  intros E. now injection E as <-.
Qed.

(** C5.  The index of the run has a record for a subject whose labeling
    failed, where the claim has none.  With the cache file and the listing
    of C3, in which sub-01 has an entry in the cache under an asset id that
    the listing does not have, and a [process_asset] that raises, the run
    completes, its one call is the failed one for sub-01, and the index has
    for sub-01 the record of the entry that was in the cache. *)
Lemma failed_subject_still_indexed :
  exists st idx,
    Rescan.main Demo.json_loads Demo.json_dumps Demo.listing_again
      Demo.process_fails (Some Demo.file_a) = Ok (st, idx)
    /\ Rescan.calls st = [(Demo.ds1, Demo.asset_a2)]
    /\ Demo.process_fails Demo.ds1 Demo.asset_a2 = None
    /\ index_records idx Demo.ds1 (subject_of (a_path Demo.asset_a2))
       = [asset_record Demo.entry_a].
Proof.
  eexists. eexists.
  split; [vm_compute; reflexivity |].
  repeat split.
Qed.

(** C6.  Two lines of the cache file have the same key and the same path.
    The table [load_label_cache] makes has the entry of the second line, and
    so has the index of [rescan_all_subjects]; the index of
    [generate_dandiset_assets] has the regions of the first line. *)
Theorem repeated_key_first_line_generated :
  Rescan.load_label_cache Demo.json_loads (Some Demo.file_twice)
  = Ok [(entry_key Demo.entry_a_again, Demo.entry_a_again)]
  /\ entry_key Demo.entry_a = entry_key Demo.entry_a_again
  /\ bind (Rescan.load_label_cache Demo.json_loads (Some Demo.file_twice))
       Rescan.regenerate
     = Ok [(Demo.ds1, [asset_record Demo.entry_a_again])]
  /\ Generate.main Demo.json_loads (Some Demo.file_twice)
     = Ok [(Demo.ds1, [asset_record Demo.entry_a])]
  /\ asset_record Demo.entry_a <> asset_record Demo.entry_a_again.
Proof.
  repeat split; try (vm_compute; reflexivity).
  vm_compute. discriminate.
Qed.

(** C8.  [load_label_cache] skips the blank lines, decodes each of the other
    lines and makes the empty table of a missing file; the loop of
    [generate_dandiset_assets] raises on a blank line, which does not
    decode, and on a missing file. *)
Theorem blank_line_and_missing_file_end_generate
  (json_loads : string -> option Entry) (lines : list string) :
  (forall s, strip s = EmptyString -> json_loads s = None) ->
  (exists line, In line lines /\ strip line = EmptyString) ->
  Rescan.load_label_cache json_loads None = Ok []
  /\ Rescan.load_label_cache json_loads (Some lines)
     = match decode_all json_loads (stripped_lines lines) with
       | Some es => Ok (table_of es)
       | None => Raise JSONDecodeError
       end
  /\ Generate.main json_loads None = Raise FileNotFoundError
  /\ Generate.main json_loads (Some lines) = Raise JSONDecodeError.
Proof.
  intros Hblank (line & I & E).
  split; [reflexivity |].
  split; [apply LoadFacts.load_label_cache_spec |].
  split; [reflexivity |].
  unfold Generate.main.
  rewrite IndexFacts.generate_read_fails; [reflexivity |].
  induction lines as [| l lines IH]; [contradiction |].
  simpl. destruct I as [-> | I].
  - now rewrite (Hblank line E).
  - destruct (json_loads l); [| reflexivity]. now rewrite (IH I).
Qed.

Lemma demo_loads_blank (s : string) :
  strip s = EmptyString -> Demo.json_loads s = None.
Proof. intros E. unfold Demo.json_loads. now rewrite E. Qed.

Lemma blank_line_and_missing_file_end_generate_witness :
  Rescan.load_label_cache Demo.json_loads None = Ok []
  /\ Rescan.load_label_cache Demo.json_loads (Some Demo.file_blank)
     = match decode_all Demo.json_loads (stripped_lines Demo.file_blank) with
       | Some es => Ok (table_of es)
       | None => Raise JSONDecodeError
       end
  /\ Generate.main Demo.json_loads None = Raise FileNotFoundError
  /\ Generate.main Demo.json_loads (Some Demo.file_blank)
     = Raise JSONDecodeError.
Proof.
  apply (blank_line_and_missing_file_end_generate Demo.json_loads
           Demo.file_blank).
  - exact demo_loads_blank.
  - exists LF. split; [simpl; auto | reflexivity].
Defined.

(** C10.  Over a cache file with the same key on two lines the index of
    [generate_dandiset_assets] and the index of a run of
    [rescan_all_subjects] that has nothing to label differ; over a file with
    a blank line the first raises and the second does not. *)
Theorem generate_and_rescan_differ :
  (exists generated st regenerated,
      Generate.main Demo.json_loads (Some Demo.file_twice) = Ok generated
      /\ Rescan.main Demo.json_loads Demo.json_dumps Demo.listing_empty
           Demo.process_asset (Some Demo.file_twice) = Ok (st, regenerated)
      /\ Rescan.calls st = []
      /\ Rescan.appended st = []
      /\ generated <> regenerated)
  /\ Generate.main Demo.json_loads (Some Demo.file_blank)
     = Raise JSONDecodeError
  /\ exists st regenerated,
       Rescan.main Demo.json_loads Demo.json_dumps Demo.listing_empty
         Demo.process_asset (Some Demo.file_blank) = Ok (st, regenerated)
       /\ Rescan.calls st = [].
Proof.
  split; [| split].
  - eexists. eexists. eexists.
    split; [vm_compute; reflexivity |].
    split; [vm_compute; reflexivity |].
    repeat split. discriminate.
  - vm_compute. reflexivity.
  - eexists. eexists. split; [vm_compute; reflexivity | reflexivity].
Qed.

(* ================================================================== *)
(** * Further properties of the two scripts *)
(* ================================================================== *)

Import Run.

(** X1.  [generate_dandiset_assets.main] raises [FileNotFoundError] on a
    missing cache file and [JSONDecodeError] when a line does not decode;
    otherwise it returns the index of the entries of the lines and never
    raises [IndexError]. *)
Theorem generate_main_outcome (json_loads : string -> option Entry)
  (file : option (list string)) :
  Generate.main json_loads file =
  match file with
  | None => Raise FileNotFoundError
  | Some lines =>
      match decode_all json_loads lines with
      | Some es => Ok (spec_index e_dandiset_id same_entry es)
      | None => Raise JSONDecodeError
      end
  end.
Proof.
  destruct file as [lines |]; [| reflexivity].
  destruct (decode_all json_loads lines) as [es |] eqn:D.
  - now apply IndexFacts.generate_main_spec.
  - unfold Generate.main. now rewrite IndexFacts.generate_read_fails.
Qed.

Lemma table_fold_keys (es : list Entry) (cache : Rescan.Cache)
  (k : string * string) :
  In k (keys (fold_left (fun c e => set (entry_key e) e c) es cache)) <->
  In k (keys cache) \/ In k (map entry_key es).
Proof.
  revert cache. induction es as [| e es IH]; intros cache; simpl.
  - tauto.
  - rewrite IH, PyFacts.In_keys_set. split.
    + intros [[-> | I] | I]; auto.
    + intros [I | [<- | I]]; auto.
Qed.

(** X2.  The table [load_label_cache] makes of a file has one item for each
    key of the entries of its non-blank lines, each item an entry of the
    file under that entry's own key, and the entry of a key is the one of
    the last line that has the key. *)
Theorem loaded_table_last_line_wins (json_loads : string -> option Entry)
  (lines : list string) (cache : Rescan.Cache) :
  Rescan.load_label_cache json_loads (Some lines) = Ok cache ->
  exists es,
    decode_all json_loads (stripped_lines lines) = Some es
    /\ NoDup (keys cache)
    /\ (forall k, In k (keys cache) <-> In k (map entry_key es))
    /\ (forall item, In item cache ->
                     In (snd item) es /\ fst item = entry_key (snd item))
    /\ forall pre e post,
         es = pre ++ e :: post ->
         (forall e', In e' post -> entry_key e' = entry_key e -> e' = e) ->
         get (entry_key e) cache = Some e.
Proof.
  rewrite LoadFacts.load_label_cache_spec.
  destruct (decode_all json_loads (stripped_lines lines)) as [es |];
    [| discriminate].
  intros E. injection E as <-. exists es.
  split; [reflexivity |].
  split; [apply LoadFacts.table_of_NoDup |].
  split.
  - intros k. unfold table_of. rewrite table_fold_keys. simpl. tauto.
  - split; [apply MoreFacts.table_of_items |].
    intros pre e post -> Hpost. now apply LoadFacts.table_of_last.
Qed.

Lemma loaded_table_last_line_wins_witness :
  exists es,
    decode_all Demo.json_loads (stripped_lines Demo.file_twice) = Some es
    /\ NoDup (keys [(entry_key Demo.entry_a_again, Demo.entry_a_again)])
    /\ (forall k,
           In k (keys [(entry_key Demo.entry_a_again, Demo.entry_a_again)])
           <-> In k (map entry_key es))
    /\ (forall item,
           In item [(entry_key Demo.entry_a_again, Demo.entry_a_again)] ->
           In (snd item) es /\ fst item = entry_key (snd item))
    /\ forall pre e post,
         es = pre ++ e :: post ->
         (forall e', In e' post -> entry_key e' = entry_key e -> e' = e) ->
         get (entry_key e)
           [(entry_key Demo.entry_a_again, Demo.entry_a_again)] = Some e.
Proof.
  apply (loaded_table_last_line_wins Demo.json_loads Demo.file_twice).
  reflexivity.
Defined.

(** X3.  A non-blank line of the cache file that does not decode ends the
    run of [rescan_all_subjects] with [JSONDecodeError], whatever the other
    lines and the collaborators are. *)
Theorem undecodable_line_ends_run
  (json_loads : string -> option Entry) (json_dumps : Entry -> string)
  (get_nwb_assets_paged : string -> result (list Asset))
  (process_asset : string -> Asset -> option Entry)
  (lines : list string) (line : string) :
  In line lines ->
  strip line <> EmptyString ->
  json_loads (strip line) = None ->
  Rescan.main json_loads json_dumps get_nwb_assets_paged process_asset
    (Some lines) = Raise JSONDecodeError.
Proof.
  intros I N L. unfold Rescan.main.
  rewrite LoadFacts.load_label_cache_spec.
  rewrite (MoreFacts.decode_all_fails json_loads (stripped_lines lines)
             (strip line)); [reflexivity | | exact L].
  apply MoreFacts.stripped_lines_In. eauto.
Qed.

Lemma undecodable_line_ends_run_witness :
  Rescan.main Demo.json_loads Demo.json_dumps Demo.listing Demo.process_asset
    (Some Demo2.file_broken) = Raise JSONDecodeError.
Proof.
  apply (undecodable_line_ends_run Demo.json_loads Demo.json_dumps
           Demo.listing Demo.process_asset Demo2.file_broken
           (Demo.line "junk")).
  - simpl. auto.
  - vm_compute. discriminate.
  - reflexivity.
Defined.

(** X4.  Over a cache file without blank lines and without a repeated key,
    whose lines decode alike with and without the white space around them,
    [generate_dandiset_assets.main] returns the index that
    [rescan_all_subjects] regenerates from the loaded table. *)
Theorem standalone_index_agrees_with_loaded_table
  (json_loads : string -> option Entry) (lines : list string)
  (es : list Entry) :
  decode_all json_loads lines = Some es ->
  decode_all json_loads (stripped_lines lines) = Some es ->
  NoDup (map entry_key es) ->
  Generate.main json_loads (Some lines)
  = bind (Rescan.load_label_cache json_loads (Some lines)) Rescan.regenerate.
Proof.
  intros D Ds N. symmetry.
  now apply (AgreeFacts.generate_agrees_without_duplicates json_loads lines es).
Qed.

Lemma standalone_index_agrees_with_loaded_table_witness :
  Generate.main Demo.json_loads (Some Demo.file_ab2)
  = bind (Rescan.load_label_cache Demo.json_loads (Some Demo.file_ab2))
      Rescan.regenerate.
Proof.
  apply (standalone_index_agrees_with_loaded_table Demo.json_loads
           Demo.file_ab2 [Demo.entry_b; Demo.entry_a; Demo.entry_2]).
  - reflexivity.
  - reflexivity.
  - repeat constructor; simpl; intuition discriminate.
Defined.



(** X6.  Over a missing cache file, or one with blank lines only,
    [rescan_all_subjects] fetches no listing and labels nothing, and the
    index it writes is empty. *)
Theorem empty_cache_nothing_to_do
  (json_loads : string -> option Entry) (json_dumps : Entry -> string)
  (get_nwb_assets_paged : string -> result (list Asset))
  (process_asset : string -> Asset -> option Entry)
  (file : option (list string)) :
  (forall line, In line (lines_of file) -> strip line = EmptyString) ->
  Rescan.main json_loads json_dumps get_nwb_assets_paged process_asset file
  = Ok (Rescan.mkState [] [] [] 0, []).
Proof.
  intros B. unfold Rescan.main.
  assert (L : Rescan.load_label_cache json_loads file = Ok []).
  { destruct file as [lines |]; [| reflexivity].
    rewrite LoadFacts.load_label_cache_spec.
    now rewrite (MoreFacts.stripped_lines_blank lines B). }
  rewrite L. reflexivity.
Qed.

Lemma empty_cache_nothing_to_do_witness :
  Rescan.main Demo.json_loads Demo.json_dumps Demo2.listing_fails
    Demo.process_asset (Some Demo2.file_blanks)
  = Ok (Rescan.mkState [] [] [] 0, []).
Proof.
  apply (empty_cache_nothing_to_do Demo.json_loads Demo.json_dumps
           Demo2.listing_fails Demo.process_asset (Some Demo2.file_blanks)).
  intros line [<- | [<- | []]]; reflexivity.
Defined.

(** X7.  Every call of [process_asset] in a run is for a dandiset of the
    loaded cache, on the first asset with the smallest path among the listed
    assets of a subject none of which has its key in the loaded table; and
    no dandiset and subject gets more than one call. *)
Theorem calls_first_asset_at_most_once
  (json_loads : string -> option Entry) (json_dumps : Entry -> string)
  (get_nwb_assets_paged : string -> result (list Asset))
  (process_asset : string -> Asset -> option Entry)
  (file : option (list string)) (cache : Rescan.Cache) (st : Rescan.state)
  (idx : Index) :
  Rescan.load_label_cache json_loads file = Ok cache ->
  Rescan.main json_loads json_dumps get_nwb_assets_paged process_asset file
  = Ok (st, idx) ->
  (forall c, In c (Rescan.calls st) ->
             In (fst c) (Rescan.dandiset_ids_of cache)
             /\ call_made_for get_nwb_assets_paged cache c)
  /\ forall ds_id subj,
       List.length (calls_for ds_id subj (Rescan.calls st)) <= 1.
Proof.
  intros Hload Hmain.
  apply MainFacts.main_Ok in Hmain. destruct Hmain as (cache' & Hload' & Hs & _).
  rewrite Hload in Hload'. injection Hload' as <-.
  split.
  - intros c I. split.
    + now apply (RunFacts.synchronize_calls_known json_dumps
                   get_nwb_assets_paged process_asset cache st c).
    + pose proof (SyncFacts.synchronize_invariant json_dumps
                    get_nwb_assets_paged process_asset cache st Hs)
        as (_ & _ & _ & _ & F).
      rewrite Forall_forall in F. now apply F.
  - intros ds_id subj.
    now apply (RunFacts.synchronize_at_most_one json_dumps
                 get_nwb_assets_paged process_asset cache st).
Qed.

Lemma calls_first_asset_at_most_once_witness :
  (forall c, In c (Rescan.calls Demo2.run_state) ->
             In (fst c) (Rescan.dandiset_ids_of Demo2.loaded_a)
             /\ call_made_for Demo.listing Demo2.loaded_a c)
  /\ forall ds_id subj,
       List.length (calls_for ds_id subj (Rescan.calls Demo2.run_state)) <= 1.
Proof.
  apply (calls_first_asset_at_most_once Demo.json_loads Demo.json_dumps
           Demo.listing Demo.process_asset (Some Demo.file_a)
           Demo2.loaded_a Demo2.run_state Demo2.run_index).
  - reflexivity.
  - vm_compute. reflexivity.
Defined.

(** X8.  At the end of a run [total_new] is the number of lines appended to
    the cache file, which is the number of calls of [process_asset] that
    returned a result, and the table has that many items more than the
    loaded one. *)
Theorem total_new_counts_new_entries
  (json_loads : string -> option Entry) (json_dumps : Entry -> string)
  (get_nwb_assets_paged : string -> result (list Asset))
  (process_asset : string -> Asset -> option Entry)
  (file : option (list string)) (cache : Rescan.Cache) (st : Rescan.state)
  (idx : Index) :
  Rescan.load_label_cache json_loads file = Ok cache ->
  Rescan.main json_loads json_dumps get_nwb_assets_paged process_asset file
  = Ok (st, idx) ->
  Rescan.total_new st = List.length (Rescan.appended st)
  /\ Rescan.total_new st
     = List.length (filter (succeeded process_asset) (Rescan.calls st))
  /\ List.length (Rescan.label_cache st)
     = List.length cache + Rescan.total_new st.
Proof.
  intros Hload Hmain.
  apply MainFacts.main_Ok in Hmain. destruct Hmain as (cache' & Hload' & Hs & _).
  rewrite Hload in Hload'. injection Hload' as <-.
  pose proof (SyncFacts.synchronize_invariant json_dumps get_nwb_assets_paged
                process_asset cache st Hs) as (_ & _ & Hlog & Hnew & _).
  pose proof (ResultFacts.synchronize_results json_dumps get_nwb_assets_paged
                process_asset cache st Hs) as (Hlen & _).
  split; [now rewrite Hlog |].
  split; [| exact Hlen].
  rewrite Hnew. apply ResultFacts.log_after_length.
Qed.

Lemma total_new_counts_new_entries_witness :
  Rescan.total_new Demo2.run_state
  = List.length (Rescan.appended Demo2.run_state)
  /\ Rescan.total_new Demo2.run_state
     = List.length (filter (succeeded Demo.process_asset)
                      (Rescan.calls Demo2.run_state))
  /\ List.length (Rescan.label_cache Demo2.run_state)
     = List.length Demo2.loaded_a + Rescan.total_new Demo2.run_state.
Proof.
  apply (total_new_counts_new_entries Demo.json_loads Demo.json_dumps
           Demo.listing Demo.process_asset (Some Demo.file_a)
           Demo2.loaded_a Demo2.run_state Demo2.run_index).
  - reflexivity.
  - vm_compute. reflexivity.
Defined.

(** X9.  After a run, every subject of the listing of a dandiset of the
    loaded cache has a listed asset with its key in the table, unless
    [process_asset] was called on its first asset with the smallest path and
    raised. *)
Theorem listed_subject_cached_or_failed
  (json_loads : string -> option Entry) (json_dumps : Entry -> string)
  (get_nwb_assets_paged : string -> result (list Asset))
  (process_asset : string -> Asset -> option Entry)
  (file : option (list string)) (cache : Rescan.Cache) (st : Rescan.state)
  (idx : Index) (ds_id : string) (all_assets : list Asset) (a0 : Asset) :
  Rescan.load_label_cache json_loads file = Ok cache ->
  Rescan.main json_loads json_dumps get_nwb_assets_paged process_asset file
  = Ok (st, idx) ->
  In ds_id (Rescan.dandiset_ids_of cache) ->
  get_nwb_assets_paged ds_id = Ok all_assets ->
  In a0 all_assets ->
  has_cached (Rescan.label_cache st) ds_id
    (listed all_assets (subject_of (a_path a0))) = true
  \/ exists a,
       first_smallest a_path a (listed all_assets (subject_of (a_path a0)))
       /\ In (ds_id, a) (Rescan.calls st)
       /\ process_asset ds_id a = None.
Proof.
  intros Hload Hmain Hds HL Ia0.
  apply MainFacts.main_Ok in Hmain. destruct Hmain as (cache' & Hload' & Hs & _).
  rewrite Hload in Hload'. injection Hload' as <-.
  now apply (RunFacts.synchronize_covers json_dumps get_nwb_assets_paged
               process_asset cache st ds_id all_assets a0).
Qed.

Lemma listed_subject_cached_or_failed_witness :
  has_cached (Rescan.label_cache Demo2.run_state) Demo.ds1
    (listed [Demo.asset_a; Demo.asset_3b; Demo.asset_3a; Demo.asset_4]
       (subject_of (a_path Demo.asset_4))) = true
  \/ exists a,
       first_smallest a_path a
         (listed [Demo.asset_a; Demo.asset_3b; Demo.asset_3a; Demo.asset_4]
            (subject_of (a_path Demo.asset_4)))
       /\ In (Demo.ds1, a) (Rescan.calls Demo2.run_state)
       /\ Demo.process_asset Demo.ds1 a = None.
Proof.
  apply (listed_subject_cached_or_failed Demo.json_loads Demo.json_dumps
           Demo.listing Demo.process_asset (Some Demo.file_a)
           Demo2.loaded_a Demo2.run_state Demo2.run_index Demo.ds1
           [Demo.asset_a; Demo.asset_3b; Demo.asset_3a; Demo.asset_4]
           Demo.asset_4).
  - reflexivity.
  - vm_compute. reflexivity.
  - vm_compute. auto.
  - reflexivity.
  - simpl. auto.
Defined.

(** X10.  When every line of the cache file, the last one too, ends with
    its end of line, and [process_asset] returns entries that carry the
    dandiset and the asset id they were asked for, that [json.dumps] writes
    on one line and that decode from that line, loading the cache file as it
    is after a run, with the texts the run wrote at its end, gives the table
    the run ends with. *)
Theorem appended_file_reloads_to_table
  (json_loads : string -> option Entry) (json_dumps : Entry -> string)
  (get_nwb_assets_paged : string -> result (list Asset))
  (process_asset : string -> Asset -> option Entry)
  (file : option (list string)) (cache : Rescan.Cache) (st : Rescan.state)
  (idx : Index) :
  Rescan.load_label_cache json_loads file = Ok cache ->
  Rescan.main json_loads json_dumps get_nwb_assets_paged process_asset file
  = Ok (st, idx) ->
  forallb terminated (lines_of file) = true ->
  (forall ds_id a result,
      process_asset ds_id a = Some result ->
      json_loads (strip (String.append (json_dumps result) LF)) = Some result
      /\ is_empty (strip (String.append (json_dumps result) LF)) = false
      /\ terminated (String.append (json_dumps result) LF) = true
      /\ entry_key result = (ds_id, a_asset_id a)) ->
  Rescan.load_label_cache json_loads
    (Some (file_after file (Rescan.appended st)))
  = Ok (Rescan.label_cache st).
Proof.
  intros Hload Hmain Hfile Hcodec.
  apply MainFacts.main_Ok in Hmain. destruct Hmain as (cache' & Hload' & Hs & _).
  rewrite Hload in Hload'. injection Hload' as <-.
  pose proof (SyncFacts.synchronize_invariant json_dumps get_nwb_assets_paged
                process_asset cache st Hs) as (_ & Hcache & Hlog & _).
  assert (L : for_each (lines_of file) (Rescan.load_line json_loads) []
              = Ok cache).
  { destruct file as [lines |]; simpl in *; [exact Hload |].
    now injection Hload as <-. }
  rewrite Hlog, Hcache.
  rewrite (RunFacts.file_after_terminated file _ Hfile).
  - unfold Rescan.load_label_cache.
    rewrite PyFacts.for_each_app, L. cbn [bind].
    apply RunFacts.reload_appended.
    intros c r _ P. destruct (Hcodec _ _ _ P) as (H1 & H2 & _ & H4). auto.
  - apply RunFacts.log_after_terminated.
    intros c r _ P. now destruct (Hcodec _ _ _ P) as (_ & _ & H3 & _).
Qed.

Lemma demo_process_known_codec (ds_id : string) (a : Asset) (result : Entry) :
  Demo2.process_known ds_id a = Some result ->
  Demo.json_loads (strip (String.append (Demo2.dumps_line result) LF))
  = Some result
  /\ is_empty (strip (String.append (Demo2.dumps_line result) LF)) = false
  /\ terminated (String.append (Demo2.dumps_line result) LF) = true
  /\ entry_key result = (ds_id, a_asset_id a).
Proof.
  unfold Demo2.process_known.
  destruct (String.eqb_spec ds_id Demo.ds1) as [-> | _]; [| discriminate].
  destruct (String.eqb_spec (a_asset_id a) "asset-b") as [E | _];
    [| discriminate].
  simpl. intros R. injection R as <-. rewrite E. repeat split.
Qed.

Lemma appended_file_reloads_to_table_witness :
  Rescan.load_label_cache Demo.json_loads
    (Some (file_after (Some Demo.file_a) [Demo.line "line-b"]))
  = Ok [(entry_key Demo.entry_a, Demo.entry_a);
        (entry_key Demo.entry_b, Demo.entry_b)].
Proof.
  apply (appended_file_reloads_to_table Demo.json_loads Demo2.dumps_line
           Demo2.listing_b Demo2.process_known (Some Demo.file_a)
           Demo2.loaded_a
           (Rescan.mkState
              [(entry_key Demo.entry_a, Demo.entry_a);
               (entry_key Demo.entry_b, Demo.entry_b)]
              [Demo.line "line-b"]
              [(Demo.ds1, Demo2.asset_b)]
              1)
           [(Demo.ds1, [asset_record Demo.entry_a])]).
  - reflexivity.
  - vm_compute. reflexivity.
  - reflexivity.
  - exact demo_process_known_codec.
Defined.

(** X11.  The subject [extract_subject] derives is a prefix of the path and
    has no separator in it, and no underscore when the path has no
    separator; a path that begins with a separator has the empty subject.
    The two copies of the function agree. *)
Theorem subject_is_prefix_without_separator (path : string) :
  String.prefix (Generate.extract_subject path) path = true
  /\ occurs slash (Generate.extract_subject path) = false
  /\ occurs slash path
     || negb (occurs underscore (Generate.extract_subject path)) = true
  /\ Generate.extract_subject (String slash path) = EmptyString
  /\ Rescan.extract_subject path = Generate.extract_subject path.
Proof.
  change (Generate.extract_subject path) with (Rescan.extract_subject path).
  change (Generate.extract_subject (String slash path))
    with (Rescan.extract_subject (String slash path)).
  rewrite !SubjectFacts.extract_subject_eq.
  split; [apply MoreFacts.subject_of_prefix |].
  split; [apply MoreFacts.subject_of_no_slash |].
  split; [| split; reflexivity].
  destruct (occurs slash path) eqn:O; [reflexivity |]. simpl.
  now rewrite (MoreFacts.subject_of_no_underscore path O).
Qed.

(** X12.  The ids of the regions both scripts compute for an entry are the
    ids of its region-match records that are not 8 or 997, and every region
    has the id, acronym and name of one of the records. *)
Theorem region_ids_are_allowed_match_ids (e : Entry) (i : Z) :
  (In i (map r_id (Rescan.regions_of (e_matched_locations e)))
   <-> excluded i = false /\ In i (match_ids e))
  /\ (In i (map r_id
              (Generate.unique_regions_of
                 (Generate.regions_of (e_matched_locations e))))
      <-> excluded i = false /\ In i (match_ids e))
  /\ Forall (fun r => exists m,
                 In m (all_matches (e_matched_locations e))
                 /\ r = region_of m)
       (Rescan.regions_of (e_matched_locations e))
  /\ Forall (fun r => exists m,
                 In m (all_matches (e_matched_locations e))
                 /\ r = region_of m)
       (Generate.unique_regions_of
          (Generate.regions_of (e_matched_locations e))).
Proof.
  rewrite RegionFacts.generate_regions_scan, RegionFacts.rescan_regions_scan.
  unfold match_ids.
  assert (Hids : In i (map r_id
                         (snd (scan [] (all_matches (e_matched_locations e)))))
                 <-> excluded i = false
                     /\ In i (map m_id (all_matches (e_matched_locations e)))).
  { rewrite MoreFacts.scan_ids. simpl. tauto. }
  assert (Hfrom : Forall (fun r => exists m,
                              In m (all_matches (e_matched_locations e))
                              /\ r = region_of m)
                    (snd (scan [] (all_matches (e_matched_locations e))))).
  { apply Forall_forall. intros r. apply MoreFacts.scan_from_matches. }
  auto.
Qed.

(** X13.  In the index of either script no dandiset is without assets, and
    the path, asset id and regions of every asset are those of one entry of
    its dandiset. *)
Theorem index_assets_come_from_entries
  (json_loads : string -> option Entry) (lines : list string)
  (es : list Entry) (cache : Rescan.Cache) :
  decode_all json_loads lines = Some es ->
  exists generated regenerated,
    Generate.main json_loads (Some lines) = Ok generated
    /\ Rescan.regenerate cache = Ok regenerated
    /\ assets_from_entries e_dandiset_id same_entry es generated
    /\ assets_from_entries item_dandiset item_entry cache regenerated.
Proof.
  intros D.
  exists (spec_index e_dandiset_id same_entry es).
  exists (spec_index item_dandiset item_entry cache).
  split; [now apply IndexFacts.generate_main_spec |].
  split; [apply IndexFacts.regenerate_spec |].
  split; apply MoreFacts.spec_index_assets.
Qed.

Lemma index_assets_come_from_entries_witness :
  exists generated regenerated,
    Generate.main Demo.json_loads (Some Demo.file_ab2) = Ok generated
    /\ Rescan.regenerate Demo2.loaded_a = Ok regenerated
    /\ assets_from_entries e_dandiset_id same_entry
         [Demo.entry_b; Demo.entry_a; Demo.entry_2] generated
    /\ assets_from_entries item_dandiset item_entry Demo2.loaded_a
         regenerated.
Proof.
  apply (index_assets_come_from_entries Demo.json_loads Demo.file_ab2).
  reflexivity.
Defined.

(** X14.  The index does not depend on the [status] of the entries: with
    other statuses in the table, or in the lines of the file, both scripts
    return the same index. *)
Theorem index_ignores_status (new_status : Entry -> string)
  (cache : Rescan.Cache) (json_loads : string -> option Entry)
  (file : option (list string)) :
  Rescan.regenerate (restatus new_status cache) = Rescan.regenerate cache
  /\ Generate.main
       (fun line =>
          option_map (fun e => with_status (new_status e) e) (json_loads line))
       file
     = Generate.main json_loads file.
Proof.
  split.
  - rewrite !IndexFacts.regenerate_spec. f_equal.
    unfold restatus. rewrite AgreeFacts.spec_index_map.
    now apply MoreFacts.spec_index_ext.
  - rewrite !MoreFacts.generate_main_cases.
    destruct file as [lines |]; [| reflexivity].
    assert (D : decode_all
                  (fun line =>
                     option_map (fun e => with_status (new_status e) e)
                       (json_loads line)) lines
                = option_map (map (fun e => with_status (new_status e) e))
                    (decode_all json_loads lines)).
    { induction lines as [| l lines IH]; [reflexivity |]. simpl.
      rewrite IH. destruct (json_loads l); [| reflexivity]. simpl.
      now destruct (decode_all json_loads lines). }
    rewrite D. destruct (decode_all json_loads lines) as [es |];
      [| reflexivity].
    simpl. f_equal. rewrite AgreeFacts.spec_index_map.
    now apply MoreFacts.spec_index_ext.
Qed.

(** X15.  When [process_asset] returns entries with the path of the asset it
    was given, the index of a run has an asset for the subject of every call
    that returned a result, and for the dandiset and subject of every entry
    of the loaded table. *)
Theorem labelled_subjects_are_indexed
  (json_loads : string -> option Entry) (json_dumps : Entry -> string)
  (get_nwb_assets_paged : string -> result (list Asset))
  (process_asset : string -> Asset -> option Entry)
  (file : option (list string)) (cache : Rescan.Cache) (st : Rescan.state)
  (idx : Index) :
  Rescan.load_label_cache json_loads file = Ok cache ->
  Rescan.main json_loads json_dumps get_nwb_assets_paged process_asset file
  = Ok (st, idx) ->
  (forall ds_id a result,
      process_asset ds_id a = Some result -> e_path result = a_path a) ->
  (forall ds_id a result,
      In (ds_id, a) (Rescan.calls st) ->
      process_asset ds_id a = Some result ->
      index_records idx ds_id (subject_of (a_path a)) <> [])
  /\ forall item,
       In item cache ->
       index_records idx (item_dandiset item) (subject_at item_entry item)
       <> [].
Proof.
  intros Hload Hmain Hpath.
  apply MainFacts.main_Ok in Hmain.
  destruct Hmain as (cache' & Hload' & Hs & Hidx).
  rewrite Hload in Hload'. injection Hload' as <-.
  rewrite IndexFacts.regenerate_spec in Hidx. injection Hidx as <-.
  pose proof (ResultFacts.synchronize_results json_dumps get_nwb_assets_paged
                process_asset cache st Hs) as (_ & Hold & Hres).
  split.
  - intros ds_id a r Ic P.
    pose proof (Hres (ds_id, a) r Ic P) as Ii. simpl in Ii.
    pose proof (ResultFacts.item_indexed (Rescan.label_cache st) _ Ii) as H.
    unfold item_dandiset, subject_at, item_entry in H. simpl in H.
    now rewrite (Hpath ds_id a r P) in H.
  - intros item I. apply ResultFacts.item_indexed. now apply Hold.
Qed.

Lemma labelled_subjects_are_indexed_witness :
  (forall ds_id a result,
      In (ds_id, a) (Rescan.calls Demo2.run_state) ->
      Demo.process_asset ds_id a = Some result ->
      index_records Demo2.run_index ds_id (subject_of (a_path a)) <> [])
  /\ forall item,
       In item Demo2.loaded_a ->
       index_records Demo2.run_index (item_dandiset item)
         (subject_at item_entry item) <> [].
Proof.
  apply (labelled_subjects_are_indexed Demo.json_loads Demo.json_dumps
           Demo.listing Demo.process_asset (Some Demo.file_a)
           Demo2.loaded_a Demo2.run_state Demo2.run_index).
  - reflexivity.
  - vm_compute. reflexivity.
  - exact demo_process_keeps_path.
Defined.

(** X16.  When the listings of the dandisets are the same in a first run and
    in a second run that starts from the table the first one ends with, the
    second run calls [process_asset] only on assets for which the call of
    the first run raised, whatever [process_asset] does in the second run:
    what was cached or labelled is not labelled again. *)
Theorem second_run_only_retries_failures
  (json_dumps : Entry -> string)
  (get_nwb_assets_paged get_nwb_assets_paged_again
     : string -> result (list Asset))
  (process_asset process_asset_again : string -> Asset -> option Entry)
  (cache : Rescan.Cache) (st1 st2 : Rescan.state) (c : string * Asset) :
  Rescan.synchronize json_dumps get_nwb_assets_paged process_asset cache
  = Ok st1 ->
  (forall ds_id, In ds_id (Rescan.dandiset_ids_of cache) ->
                 get_nwb_assets_paged_again ds_id
                 = get_nwb_assets_paged ds_id) ->
  Rescan.synchronize json_dumps get_nwb_assets_paged_again
    process_asset_again (Rescan.label_cache st1) = Ok st2 ->
  In c (Rescan.calls st2) ->
  In c (Rescan.calls st1) /\ process_asset (fst c) (snd c) = None.
Proof.
  intros H1 Hsame H2 Ic.
  now apply (RunFacts.second_run_retries_failures json_dumps json_dumps
               get_nwb_assets_paged get_nwb_assets_paged_again
               process_asset process_asset_again cache st1 st2 c).
Qed.

Lemma second_run_only_retries_failures_witness :
  In (Demo.ds1, Demo.asset_4) (Rescan.calls Demo2.run_state)
  /\ Demo.process_asset (fst (Demo.ds1, Demo.asset_4))
       (snd (Demo.ds1, Demo.asset_4)) = None.
Proof.
  apply (second_run_only_retries_failures Demo.json_dumps Demo.listing
           Demo.listing Demo.process_asset Demo.process_fails
           Demo2.loaded_a Demo2.run_state
           (Rescan.mkState (Rescan.label_cache Demo2.run_state) []
              [(Demo.ds1, Demo.asset_4)] 0)
           (Demo.ds1, Demo.asset_4)).
  - vm_compute. reflexivity.
  - reflexivity.
  - vm_compute. reflexivity.
  - simpl. auto.
Defined.



(** X18.  When [process_asset] returns entries with the path of the asset it
    was given, and no entry of the loaded table is filed under a dandiset
    with a path that gives a subject, the index of the run has no asset for
    that dandiset and subject if the call of [process_asset] for them
    raised. *)
Theorem failed_uncached_subject_not_indexed
  (json_loads : string -> option Entry) (json_dumps : Entry -> string)
  (get_nwb_assets_paged : string -> result (list Asset))
  (process_asset : string -> Asset -> option Entry)
  (file : option (list string)) (cache : Rescan.Cache) (st : Rescan.state)
  (idx : Index) (ds_id : string) (a : Asset) :
  Rescan.load_label_cache json_loads file = Ok cache ->
  Rescan.main json_loads json_dumps get_nwb_assets_paged process_asset file
  = Ok (st, idx) ->
  (forall d x result,
      process_asset d x = Some result -> e_path result = a_path x) ->
  In (ds_id, a) (Rescan.calls st) ->
  process_asset ds_id a = None ->
  cached_subject cache ds_id (subject_of (a_path a)) = false ->
  index_records idx ds_id (subject_of (a_path a)) = [].
Proof.
  intros Hload Hmain Hpath Hcall Hfail Hnone.
  apply MainFacts.main_Ok in Hmain.
  destruct Hmain as (cache' & Hload' & Hs & Hidx).
  rewrite Hload in Hload'. injection Hload' as <-.
  apply (SyncFacts.failed_subject_not_indexed json_dumps
           get_nwb_assets_paged process_asset cache st ds_id a); auto.
  now apply SyncFacts.synchronize_invariant.
Qed.

Lemma failed_uncached_subject_not_indexed_witness :
  index_records Demo2.run_index Demo.ds1 (subject_of (a_path Demo.asset_4))
  = [].
Proof.
  apply (failed_uncached_subject_not_indexed Demo.json_loads Demo.json_dumps
           Demo.listing Demo.process_asset (Some Demo.file_a)
           Demo2.loaded_a Demo2.run_state Demo2.run_index Demo.ds1
           Demo.asset_4).
  - reflexivity.
  - vm_compute. reflexivity.
  - exact demo_process_keeps_path.
  - simpl. auto.
  - reflexivity.
  - reflexivity.
Defined.
